(** * Tournament analysis: a shallow embedding of [src/src/tournament_analysis.py]

    The module has five pure stages: a record parser, a filter, an aggregator,
    a ranker and a reporter.  Python integers are unbounded, so they are [Z];
    Python strings are [string] (characters are code points below 256, and the
    ordering of [String.compare] is the code point ordering Python uses);
    a Python [dict] is an association list in insertion order, because the
    ranker's stable sort makes that order observable. *)

From Stdlib Require Import ZArith List String Ascii Bool Lia Permutation.
From Stdlib Require DecimalString DecimalN DecimalPos.
From Stdlib Require Import Sorted.
Import ListNotations.
Open Scope Z_scope.

(** ** Data model *)

(** The dict returned by [parse_match_data] and consumed by every other stage. *)
Record MatchRecord : Type := mkMatch {
  date : string;
  team1 : string;
  score1 : Z;
  team2 : string;
  score2 : Z;
  stadium : string;
  attendance : Z
}.

(** A Python dict with string keys, in insertion order. *)
Definition dict (V : Type) : Type := list (string * V).

Fixpoint contains {V : Type} (k : string) (d : dict V) : bool :=
  match d with
  | [] => false
  | (k', _) :: d' => if (k' =? k)%string then true else contains k d'
  end.

Fixpoint dict_get {V : Type} (k : string) (d : dict V) : option V :=
  match d with
  | [] => None
  | (k', v) :: d' => if (k' =? k)%string then Some v else dict_get k d'
  end.

Definition keys {V : Type} (d : dict V) : list string := map fst d.

(** ** Stable sorting

    [sorted(xs, key=f)] and [xs.sort(key=f)] are stable and compare keys with
    [<] only.  A stable sort has one possible result, so the insertion sort
    below returns the list Python's sort returns. *)
Section StableSort.
Context {A K : Type}.
Variable key : A -> K.
Variable lt : K -> K -> bool.

Fixpoint insert_by (x : A) (l : list A) : list A :=
  match l with
  | [] => [x]
  | y :: l' => if lt (key y) (key x) then y :: insert_by x l' else x :: y :: l'
  end.

Fixpoint sort_by (l : list A) : list A :=
  match l with
  | [] => []
  | x :: l' => insert_by x (sort_by l')
  end.
End StableSort.

(** ** Aggregator: [calculate_advanced_team_stats] *)

Inductive venue : Type := home | away.

(** The tuples [(match['date'], 'home' | 'away', match)] of [team_matches]. *)
Definition entry : Type := (string * venue * MatchRecord)%type.

Definition entry_date (e : entry) : string := fst (fst e).
Definition entry_venue (e : entry) : venue := snd (fst e).
Definition entry_match (e : entry) : MatchRecord := snd e.

Definition is_home (e : entry) : bool :=
  match entry_venue e with home => true | away => false end.

Definition team_score (e : entry) : Z :=
  if is_home e then score1 (entry_match e) else score2 (entry_match e).

Definition opponent_score (e : entry) : Z :=
  if is_home e then score2 (entry_match e) else score1 (entry_match e).

(** [if team not in team_matches: team_matches[team] = []] *)
Definition add_key (k : string) (d : dict (list entry)) : dict (list entry) :=
  if contains k d then d else d ++ [(k, [])].

(** [team_matches[k].append(e)]; the key is always present when this runs
    (Python would raise [KeyError] otherwise). *)
Fixpoint append_to (k : string) (e : entry) (d : dict (list entry))
  : dict (list entry) :=
  match d with
  | [] => []
  | (k', v) :: d' =>
      if (k' =? k)%string then (k', v ++ [e]) :: d' else (k', v) :: append_to k e d'
  end.

(** Body of the first loop over [sorted_matches]. *)
Definition group_step (tm : dict (list entry)) (m : MatchRecord)
  : dict (list entry) :=
  let tm := add_key (team1 m) tm in
  let tm := add_key (team2 m) tm in
  let tm := append_to (team1 m) (date m, home, m) tm in
  append_to (team2 m) (date m, away, m) tm.

Definition group_matches (sorted_matches : list MatchRecord)
  : dict (list entry) :=
  fold_left group_step sorted_matches [].

(** The counters of the per-team loop. *)
Record counters : Type := mkCounters {
  c_points : Z;
  c_wins : Z;
  c_draws : Z;
  c_losses : Z;
  c_goals_for : Z;
  c_goals_against : Z;
  c_home_points : Z;
  c_away_points : Z;
  c_total_attendance : Z
}.

Definition counters0 : counters := mkCounters 0 0 0 0 0 0 0 0 0.

(** Body of [for date_str, venue, match in matches]. *)
Definition count_step (c : counters) (e : entry) : counters :=
  let gf := c_goals_for c + team_score e in
  let ga := c_goals_against c + opponent_score e in
  let ta := c_total_attendance c + attendance (entry_match e) in
  if team_score e >? opponent_score e then
    mkCounters (c_points c + 3) (c_wins c + 1) (c_draws c) (c_losses c) gf ga
      (if is_home e then c_home_points c + 3 else c_home_points c)
      (if is_home e then c_away_points c else c_away_points c + 3) ta
  else if team_score e =? opponent_score e then
    mkCounters (c_points c + 1) (c_wins c) (c_draws c + 1) (c_losses c) gf ga
      (if is_home e then c_home_points c + 1 else c_home_points c)
      (if is_home e then c_away_points c else c_away_points c + 1) ta
  else
    mkCounters (c_points c + 0) (c_wins c) (c_draws c) (c_losses c + 1) gf ga
      (c_home_points c) (c_away_points c) ta.

(** [for ... in reversed(matches): if win: win_streak += 1 else: break],
    run on the reversed list. *)
Fixpoint streak_loop (win_streak : Z) (reversed : list entry) : Z :=
  match reversed with
  | [] => win_streak
  | e :: rest =>
      if team_score e >? opponent_score e then streak_loop (win_streak + 1) rest
      else win_streak
  end.

(** The per-team dict of the result.  [avg_attendance] is the float
    [round(total_attendance / matches_played, 2)]; the record keeps the exact
    sum [total_attendance] it is computed from. *)
Record TeamStats : Type := mkStats {
  points : Z;
  matches_played : Z;
  wins : Z;
  draws : Z;
  losses : Z;
  goals_for : Z;
  goals_against : Z;
  goal_diff : Z;
  home_points : Z;
  away_points : Z;
  win_streak : Z;
  total_attendance : Z
}.

(** Body of [for team, matches in team_matches.items()], after
    [matches.sort(key=lambda x: x[0])]. *)
Definition team_stats_of (matches : list entry) : TeamStats :=
  let c := fold_left count_step matches counters0 in
  mkStats (c_points c) (Z.of_nat (List.length matches)) (c_wins c) (c_draws c)
    (c_losses c) (c_goals_for c) (c_goals_against c)
    (c_goals_for c - c_goals_against c) (c_home_points c) (c_away_points c)
    (streak_loop 0 (rev matches)) (c_total_attendance c).

Definition sort_matches : list MatchRecord -> list MatchRecord :=
  sort_by date String.ltb.

Definition sort_entries : list entry -> list entry :=
  sort_by entry_date String.ltb.

Definition calculate_advanced_team_stats (matches_list : list MatchRecord)
  : dict TeamStats :=
  match matches_list with
  | [] => []
  | _ =>
      map (fun tm => (fst tm, team_stats_of (sort_entries (snd tm))))
        (group_matches (sort_matches matches_list))
  end.

(** ** Ranker: [rank_teams_advanced] *)

(** The working dicts of [teams_list]. *)
Record team_data : Type := mkTeam {
  t_name : string;
  t_points : Z;
  t_goal_diff : Z;
  t_goals_for : Z;
  t_wins : Z
}.

(** A row [(rank, team, points, goal_diff)] of the standings. *)
Definition StandingsRow : Type := (Z * string * Z * Z)%type.

Definition row_rank (r : StandingsRow) : Z := fst (fst (fst r)).
Definition row_team (r : StandingsRow) : string := snd (fst (fst r)).
Definition row_points (r : StandingsRow) : Z := snd (fst r).
Definition row_goal_diff (r : StandingsRow) : Z := snd r.

Definition default_tiebreaker_order : list string :=
  ["points"; "goal_diff"; "goals_for"]%string.

Definition make_team_data (kv : string * TeamStats) : team_data :=
  mkTeam (fst kv) (points (snd kv)) (goal_diff (snd kv)) (goals_for (snd kv))
    (wins (snd kv)).

(** [get_sort_key]: one negated value per recognised criterion; any other
    criterion adds nothing to the tuple. *)
Fixpoint get_sort_key (tiebreaker_order : list string) (t : team_data)
  : list Z :=
  match tiebreaker_order with
  | [] => []
  | criterion :: rest =>
      if (criterion =? "points")%string then
        - t_points t :: get_sort_key rest t
      else if (criterion =? "goal_diff")%string then
        - t_goal_diff t :: get_sort_key rest t
      else if (criterion =? "goals_for")%string then
        - t_goals_for t :: get_sort_key rest t
      else if (criterion =? "wins")%string then
        - t_wins t :: get_sort_key rest t
      else get_sort_key rest t
  end.

(** Python's [<] on tuples of integers. *)
Fixpoint tuple_lt (a b : list Z) : bool :=
  match a, b with
  | [], [] => false
  | [], _ :: _ => true
  | _ :: _, [] => false
  | x :: a', y :: b' => if x =? y then tuple_lt a' b' else x <? y
  end.

(** The inner loop that computes [is_tie]. *)
Fixpoint is_tie (tiebreaker_order : list string) (team prev_team : team_data)
  : bool :=
  match tiebreaker_order with
  | [] => true
  | criterion :: rest =>
      if (criterion =? "points")%string
         && negb (t_points team =? t_points prev_team) then false
      else if (criterion =? "goal_diff")%string
         && negb (t_goal_diff team =? t_goal_diff prev_team) then false
      else if (criterion =? "goals_for")%string
         && negb (t_goals_for team =? t_goals_for prev_team) then false
      else if (criterion =? "wins")%string
         && negb (t_wins team =? t_wins prev_team) then false
      else is_tie rest team prev_team
  end.

(** The ranking loop from index [i >= 1] on; [prev_team] is
    [teams_list[i-1]]. *)
Fixpoint rank_loop (tiebreaker_order : list string) (i : Z)
  (prev_team : team_data) (current_rank : Z) (teams : list team_data)
  : list StandingsRow :=
  match teams with
  | [] => []
  | team :: rest =>
      let current_rank' :=
        if is_tie tiebreaker_order team prev_team then current_rank
        else i + 1 in
      (current_rank', t_name team, t_points team, t_goal_diff team)
        :: rank_loop tiebreaker_order (i + 1) team current_rank' rest
  end.

Definition assign_ranks (tiebreaker_order : list string)
  (teams_list : list team_data) : list StandingsRow :=
  match teams_list with
  | [] => []
  | team :: rest =>
      (1, t_name team, t_points team, t_goal_diff team)
        :: rank_loop tiebreaker_order 1 team 1 rest
  end.

Definition sort_teams (tiebreaker_order : list string)
  : list team_data -> list team_data :=
  sort_by (get_sort_key tiebreaker_order) tuple_lt.

(** [if tiebreaker_order is None: tiebreaker_order = [...]] *)
Definition active_order (tiebreaker_order : option (list string))
  : list string :=
  match tiebreaker_order with
  | None => default_tiebreaker_order
  | Some o => o
  end.

Definition rank_teams_advanced (team_stats : dict TeamStats)
  (tiebreaker_order : option (list string)) : list StandingsRow :=
  let tiebreaker_order := active_order tiebreaker_order in
  match team_stats with
  | [] => []
  | _ =>
      assign_ranks tiebreaker_order
        (sort_teams tiebreaker_order (map make_team_data team_stats))
  end.

(** ** Reporter: [generate_analytics_report] *)

(** [d[k] = v] *)
Fixpoint dict_set {V : Type} (k : string) (v : V) (d : dict V) : dict V :=
  match d with
  | [] => [(k, v)]
  | (k', v') :: d' =>
      if (k' =? k)%string then (k', v) :: d' else (k', v') :: dict_set k v d'
  end.

(** The dict stored under ["biggest_upset"]. *)
Record upset : Type := mkUpset {
  upset_match : MatchRecord;
  winner_rank : Z;
  loser_rank : Z
}.

Definition build_rank_dict (tournament_table : list StandingsRow) : dict Z :=
  fold_left (fun d r => dict_set (row_team r) (row_rank r) d)
    tournament_table [].

(** Body of the upset loop; the state is [(biggest_upset, max_rank_diff)]. *)
Definition upset_step (rank_dict : dict Z) (st : option upset * Z)
  (m : MatchRecord) : option upset * Z :=
  if score1 m =? score2 m then st
  else if negb (contains (team1 m) rank_dict)
          || negb (contains (team2 m) rank_dict) then st
  else
    let winner := if score1 m >? score2 m then team1 m else team2 m in
    let loser := if score1 m >? score2 m then team2 m else team1 m in
    match dict_get winner rank_dict, dict_get loser rank_dict with
    | Some wr, Some lr =>
        if wr >? lr then
          let rank_diff := wr - lr in
          if rank_diff >? snd st then (Some (mkUpset m wr lr), rank_diff)
          else st
        else st
    | _, _ => st
    end.

Definition find_biggest_upset (matches_list : list MatchRecord)
  (rank_dict : dict Z) : option upset :=
  fst (fold_left (upset_step rank_dict) matches_list (None, -1)).

(** [max(xs, key=f)] on a non-empty list [x :: xs]: the first maximum. *)
Definition max_by {A : Type} (f : A -> Z) (x : A) (xs : list A) : A :=
  fold_left (fun best y => if f y >? f best then y else best) xs x.

(** [d[k] = d.get(k, 0) + 1] on a dict with integer keys. *)
Fixpoint count_up (k : Z) (d : list (Z * Z)) : list (Z * Z) :=
  match d with
  | [] => [(k, 0 + 1)]
  | (k', n) :: d' =>
      if k' =? k then (k', n + 1) :: d' else (k', n) :: count_up k d'
  end.

(** The report.  [most_efficient_team] and [attendance_by_team] are computed
    with floats and are left out; an empty dict [{}] is [None]. *)
Record AnalyticsReport : Type := mkReport {
  tournament_leader : string;
  most_goals_match : option MatchRecord;
  highest_attendance_match : option MatchRecord;
  biggest_upset : option upset;
  goal_distribution : list (Z * Z)
}.

Definition generate_analytics_report (matches_list : list MatchRecord)
  (team_stats : dict TeamStats) (tournament_table : list StandingsRow)
  : AnalyticsReport :=
  match matches_list, team_stats, tournament_table with
  | m :: ms, _ :: _, r :: _ =>
      let rank_dict := build_rank_dict tournament_table in
      mkReport (row_team r)
        (Some (max_by (fun m => score1 m + score2 m) m ms))
        (Some (max_by attendance m ms))
        (find_biggest_upset matches_list rank_dict)
        (fold_left (fun d m => count_up (score1 m + score2 m) d)
           matches_list [])
  | _, _, _ => mkReport EmptyString None None None []
  end.

(** ** Filter: [filter_matches_by_criteria] *)

(** A keyword argument value: a string or an integer. *)
Inductive value : Type :=
| VStr (s : string)
| VInt (n : Z).

(** The comparisons of the list comprehensions.  [==] between a string and
    an integer is [False]; [>=] and [<=] between them raise [TypeError],
    which is [None] here. *)
Definition str_eq (a : string) (v : value) : option bool :=
  match v with VStr s => Some (a =? s)%string | VInt _ => Some false end.

Definition str_ge (a : string) (v : value) : option bool :=
  match v with VStr s => Some (s <=? a)%string | VInt _ => None end.

Definition str_le (a : string) (v : value) : option bool :=
  match v with VStr s => Some (a <=? s)%string | VInt _ => None end.

Definition int_ge (a : Z) (v : value) : option bool :=
  match v with VInt n => Some (a >=? n) | VStr _ => None end.

Definition int_le (a : Z) (v : value) : option bool :=
  match v with VInt n => Some (a <=? n) | VStr _ => None end.

(** [[m for m in ms if cond(m)]] with a condition that may raise. *)
Fixpoint comprehension (cond : MatchRecord -> option bool)
  (ms : list MatchRecord) : option (list MatchRecord) :=
  match ms with
  | [] => Some []
  | m :: ms' =>
      match cond m with
      | None => None
      | Some b =>
          match comprehension cond ms' with
          | None => None
          | Some r => Some (if b then m :: r else r)
          end
      end
  end.

(** The condition selected by one [key, value] pair; [None] for a key that
    is not recognised. *)
Definition criterion_cond (key : string) (v : value)
  : option (MatchRecord -> option bool) :=
  if (key =? "team")%string then
    Some (fun m =>
            match str_eq (team1 m) v with
            | Some true => Some true
            | Some false => str_eq (team2 m) v
            | None => None
            end)
  else if (key =? "date_from")%string then Some (fun m => str_ge (date m) v)
  else if (key =? "date_to")%string then Some (fun m => str_le (date m) v)
  else if (key =? "min_attendance")%string then
    Some (fun m => int_ge (attendance m) v)
  else if (key =? "max_attendance")%string then
    Some (fun m => int_le (attendance m) v)
  else if (key =? "min_total_goals")%string then
    Some (fun m => int_ge (score1 m + score2 m) v)
  else if (key =? "stadium")%string then Some (fun m => str_eq (stadium m) v)
  else None.

(** Body of [for key, value in criteria.items()]. *)
Definition filter_step (filtered_matches : list MatchRecord)
  (kv : string * value) : option (list MatchRecord) :=
  match criterion_cond (fst kv) (snd kv) with
  | Some cond => comprehension cond filtered_matches
  | None => Some filtered_matches
  end.

Fixpoint filter_loop (filtered_matches : list MatchRecord)
  (criteria : dict value) : option (list MatchRecord) :=
  match criteria with
  | [] => Some filtered_matches
  | kv :: rest =>
      match filter_step filtered_matches kv with
      | None => None
      | Some ms => filter_loop ms rest
      end
  end.

Definition filter_matches_by_criteria (matches_list : list MatchRecord)
  (criteria : dict value) : option (list MatchRecord) :=
  match matches_list with
  | [] => Some []
  | _ => filter_loop matches_list criteria
  end.

(** ** Parser: [parse_match_data]

    The parser works on the characters of the line.  The library calls it
    makes are modelled as CPython defines them: [str.split], [str.strip],
    [int], [datetime.date] and the backtracking matcher of [re.match]. *)

Definition chars : Type := list ascii.

(** [str.isspace] on the code points below 256; the same set is [\s]. *)
Definition is_space (c : ascii) : bool :=
  match N_of_ascii c with
  | 9 | 10 | 11 | 12 | 13 | 28 | 29 | 30 | 31 | 32 | 133 | 160 => true
  | _ => false
  end%N.

Definition is_digit (c : ascii) : bool :=
  ((48 <=? N_of_ascii c) && (N_of_ascii c <=? 57))%N.

Definition digit_value (c : ascii) : Z := Z.of_N (N_of_ascii c) - 48.

(** *** [str.strip] *)

Fixpoint lstrip (s : chars) : chars :=
  match s with
  | c :: s' => if is_space c then lstrip s' else s
  | [] => []
  end.

Definition rstrip (s : chars) : chars := rev (lstrip (rev s)).

Definition strip (s : chars) : chars := rstrip (lstrip s).

(** *** [str.split(sep)] with a non-empty separator *)

(** The rest of [s] after the prefix [p], when [s] starts with [p]. *)
Fixpoint starts_with (p s : chars) : option chars :=
  match p, s with
  | [], _ => Some s
  | _ :: _, [] => None
  | c :: p', d :: s' => if (c =? d)%char then starts_with p' s' else None
  end.

(** The text before and after the leftmost occurrence of [sep]. *)
Fixpoint find_sep (sep s : chars) : option (chars * chars) :=
  match starts_with sep s with
  | Some rest => Some ([], rest)
  | None =>
      match s with
      | [] => None
      | c :: s' =>
          match find_sep sep s' with
          | Some (before, rest) => Some (c :: before, rest)
          | None => None
          end
      end
  end.

(** Every cut removes at least one character, so [length s] rounds are
    enough to reach the part with no separator. *)
Fixpoint split_rounds (rounds : nat) (sep s : chars) : list chars :=
  match rounds with
  | O => [s]
  | S n =>
      match find_sep sep s with
      | Some (before, rest) => before :: split_rounds n sep rest
      | None => [s]
      end
  end.

Definition split (sep s : chars) : list chars :=
  split_rounds (List.length s) sep s.

(** *** [int(s)] on a string

    Surrounding whitespace, one optional sign, then decimal digits in which
    single underscores may separate digits.  [None] is [ValueError].

    [int] does not skip the whitespace of [str.strip]: below 256 it skips
    the ASCII blanks 9 to 13 and 32 and the two blanks 133 and 160, but not
    the separators 28 to 31, on which it raises.  It also raises on a text
    with more than [sys.int_max_str_digits] digits, 4300 unless the
    interpreter is configured otherwise; the sign and the underscores do
    not count. *)

Definition is_int_space (c : ascii) : bool :=
  match N_of_ascii c with
  | 9 | 10 | 11 | 12 | 13 | 32 | 133 | 160 => true
  | _ => false
  end%N.

Fixpoint int_lstrip (s : chars) : chars :=
  match s with
  | c :: s' => if is_int_space c then int_lstrip s' else s
  | [] => []
  end.

Definition int_strip (s : chars) : chars :=
  rev (int_lstrip (rev (int_lstrip s))).

Definition max_str_digits : Z := 4300.

Definition digit_count (s : chars) : Z :=
  Z.of_nat (List.length (filter is_digit s)).

(** The text after a digit; [acc] is the value read so far. *)
Fixpoint int_digits (acc : Z) (s : chars) : option Z :=
  match s with
  | [] => Some acc
  | c :: r =>
      if is_digit c then int_digits (10 * acc + digit_value c) r
      else if (c =? "_")%char then
        match r with
        | d :: r' =>
            if is_digit d then int_digits (10 * acc + digit_value d) r'
            else None
        | [] => None
        end
      else None
  end.

Definition int_unsigned (s : chars) : option Z :=
  match s with
  | c :: r =>
      if is_digit c then
        if digit_count s <=? max_str_digits then
          int_digits (digit_value c) r
        else None
      else None
  | [] => None
  end.

Definition py_int (s : chars) : option Z :=
  match int_strip s with
  | c :: r =>
      if (c =? "+")%char then int_unsigned r
      else if (c =? "-")%char then option_map Z.opp (int_unsigned r)
      else int_unsigned (c :: r)
  | [] => None
  end.

(** *** [datetime.date(year, month, day)] *)

Definition is_leap (year : Z) : bool :=
  (year mod 4 =? 0) && (negb (year mod 100 =? 0) || (year mod 400 =? 0)).

Definition days_in_month (year month : Z) : Z :=
  if month =? 2 then (if is_leap year then 29 else 28)
  else if (month =? 4) || (month =? 6) || (month =? 9) || (month =? 11) then 30
  else 31.

Inductive date_check : Type :=
| DateOk
| DateValueError
| DateOverflowError.

Definition fits_c_int (n : Z) : bool := (- 2 ^ 31 <=? n) && (n <? 2 ^ 31).

(** CPython converts the three arguments to C [int]s first and raises
    [OverflowError] when one does not fit; then it checks the ranges. *)
Definition datetime_date (year month day : Z) : date_check :=
  if negb (fits_c_int year && fits_c_int month && fits_c_int day) then
    DateOverflowError
  else if (1 <=? year) && (year <=? 9999) && (1 <=? month) && (month <=? 12)
          && (1 <=? day) && (day <=? days_in_month year month) then DateOk
  else DateValueError.

(** The [try] block that validates the date: unpacking needs exactly three
    parts and each must be accepted by [int]. *)
Definition check_date (date_str : chars) : date_check :=
  match split ["-"%char] date_str with
  | [y; m; d] =>
      match py_int y, py_int m, py_int d with
      | Some year, Some month, Some day => datetime_date year month day
      | _, _, _ => DateValueError
      end
  | _ => DateValueError
  end.

(** *** [re.match]

    The constructs the pattern uses, matched by backtracking in the order
    the [re] module tries the alternatives: a greedy repetition tries the
    longest run first, a lazy one the shortest. *)
Inductive regex : Type :=
| Chr (c : ascii)
| Star (cls : ascii -> bool)
| LazyStar (cls : ascii -> bool)
| Plus (cls : ascii -> bool)
| Group (i : nat) (r : regex)
| Cat (r1 r2 : regex)
| Bol
| Eol.

Definition captures : Type := nat -> option chars.

Definition set_group (i : nat) (s : chars) (g : captures) : captures :=
  fun j => if Nat.eqb j i then Some s else g j.

Section Repetition.
Context {R : Type}.
Variable cls : ascii -> bool.
Variable k : chars -> option R.

Fixpoint star (s : chars) : option R :=
  match s with
  | c :: s' =>
      if cls c then
        match star s' with
        | Some r => Some r
        | None => k s
        end
      else k s
  | [] => k []
  end.

Fixpoint lazy_star (s : chars) : option R :=
  match k s with
  | Some r => Some r
  | None =>
      match s with
      | c :: s' => if cls c then lazy_star s' else None
      | [] => None
      end
  end.
End Repetition.

(** [exec whole r s g k]: match [r] at the suffix [s] of [whole], then
    continue with [k]. *)
Fixpoint exec (whole : chars) (r : regex) (s : chars) (g : captures)
  (k : chars -> captures -> option captures) : option captures :=
  match r with
  | Chr c =>
      match s with
      | d :: s' => if (c =? d)%char then k s' g else None
      | [] => None
      end
  | Star cls => star cls (fun s' => k s' g) s
  | LazyStar cls => lazy_star cls (fun s' => k s' g) s
  | Plus cls =>
      match s with
      | d :: s' => if cls d then star cls (fun s'' => k s'' g) s' else None
      | [] => None
      end
  | Group i r' =>
      exec whole r' s g
        (fun s' g' =>
           k s' (set_group i (firstn (List.length s - List.length s') s) g'))
  | Cat r1 r2 => exec whole r1 s g (fun s' g' => exec whole r2 s' g' k)
  | Bol => if Nat.eqb (List.length s) (List.length whole) then k s g else None
  | Eol =>
      match s with
      | [] => k s g
      | ["010"%char] => k s g
      | _ => None
      end
  end.

Definition re_match (r : regex) (s : chars) : option captures :=
  exec s r s (fun _ => None) (fun _ g => Some g).

(** [.] matches everything but a newline. *)
Definition dot (c : ascii) : bool := negb (c =? "010")%char.
Definition not_char (x : ascii) (c : ascii) : bool := negb (c =? x)%char.

Fixpoint cat_all (rs : list regex) : regex :=
  match rs with
  | [] => Star (fun _ => false)
  | [r] => r
  | r :: rs' => Cat r (cat_all rs')
  end.

(** [^\s*(.*?)\s*\(([^:]+):([^)]+)\)\s*(.*?)\s*$] *)
Definition pattern : regex :=
  cat_all
    [Bol; Star is_space; Group 1 (LazyStar dot); Star is_space; Chr "(";
     Group 2 (Plus (not_char ":")); Chr ":"; Group 3 (Plus (not_char ")"));
     Chr ")"; Star is_space; Group 4 (LazyStar dot); Star is_space; Eol].

(** *** The parser *)

Inductive parse_result : Type :=
| Parsed (r : MatchRecord)
| ValueError (msg : string)
| OverflowError.

Definition s2c : string -> chars := list_ascii_of_string.
Definition c2s : chars -> string := string_of_list_ascii.

Definition is_empty (s : chars) : bool :=
  match s with [] => true | _ => false end.

(** The four groups always take part in a match of this pattern, so the
    last branch on the groups is never taken. *)
Definition parse_chars (match_string : chars) : parse_result :=
  match split (s2c " | ") match_string with
  | [date_str; teams_score_str; stadium_str; attendance_str] =>
      match check_date date_str with
      | DateOverflowError => OverflowError
      | DateValueError => ValueError "Invalid date format: expected YYYY-MM-DD"
      | DateOk =>
          match re_match pattern (strip teams_score_str) with
          | None =>
              ValueError
                "Invalid teams/score format: expected 'Team1 (X:Y) Team2'"
          | Some g =>
              match g 1%nat, g 2%nat, g 3%nat, g 4%nat with
              | Some team1, Some score1_str, Some score2_str, Some team2 =>
                  let team1 := strip team1 in
                  let team2 := strip team2 in
                  let stadium_str := strip stadium_str in
                  if is_empty team1 || is_empty team2 || is_empty stadium_str
                  then ValueError "Team names and stadium cannot be empty"
                  else
                    match py_int score1_str, py_int score2_str with
                    | Some score1, Some score2 =>
                        if (score1 <? 0) || (score2 <? 0) then
                          ValueError
                            "Invalid score: must be non-negative integers"
                        else
                          match py_int attendance_str with
                          | Some attendance =>
                              if attendance <=? 0 then
                                ValueError
                                  "Invalid attendance: must be a positive integer"
                              else
                                Parsed
                                  (mkMatch (c2s date_str) (c2s team1) score1
                                     (c2s team2) score2 (c2s stadium_str)
                                     attendance)
                          | None =>
                              ValueError
                                "Invalid attendance: must be a positive integer"
                          end
                    | _, _ =>
                        ValueError
                          "Invalid score: must be non-negative integers"
                    end
              | _, _, _, _ =>
                  ValueError
                    "Invalid teams/score format: expected 'Team1 (X:Y) Team2'"
              end
          end
      end
  | _ => ValueError "Invalid format: expected 4 parts separated by ' | '"
  end.

Definition parse_match_data (match_string : string) : parse_result :=
  parse_chars (s2c match_string).

(** ** Definitions used by the statements *)

(** [sum(f(x) for x in l)] *)
Definition sum_over {A : Type} (f : A -> Z) (l : list A) : Z :=
  fold_right (fun x acc => f x + acc) 0 l.

Definition home_entry (m : MatchRecord) : entry := (date m, home, m).
Definition away_entry (m : MatchRecord) : entry := (date m, away, m).

(** The entries a list of matches contributes to team [t], in list order. *)
Definition entries_of (t : string) (ms : list MatchRecord) : list entry :=
  flat_map
    (fun m =>
       (if (team1 m =? t)%string then [home_entry m] else [])
         ++ (if (team2 m =? t)%string then [away_entry m] else []))
    ms.




(** The relations between the counters that every iteration keeps. *)
Definition counters_ok (c : counters) (played : Z) : Prop :=
  c_points c = 3 * c_wins c + c_draws c
  /\ c_wins c + c_draws c + c_losses c = played
  /\ c_home_points c + c_away_points c = c_points c.


(** What the grouping loop stores under a team: its entries, in order; a
    team without entries has no key. *)
Definition some_nonempty (es : list entry) : option (list entry) :=
  match es with [] => None | _ => Some es end.



(** The two matches of the scenario, the later one first. *)
Definition streak_example : list MatchRecord :=
  [mkMatch "2024-01-08" "Alpha" 1 "Gamma" 1 "Arena" 120;
   mkMatch "2024-01-01" "Alpha" 2 "Beta" 0 "Arena" 100].

(** The statistic a recognised tie-break criterion names. *)
Definition criterion_stat (criterion : string) : option (team_data -> Z) :=
  if (criterion =? "points")%string then Some t_points
  else if (criterion =? "goal_diff")%string then Some t_goal_diff
  else if (criterion =? "goals_for")%string then Some t_goals_for
  else if (criterion =? "wins")%string then Some t_wins
  else None.

(** Two teams are tied under a tie-break order when they are equal on every
    criterion of the list. *)
Definition tied (tiebreaker_order : list string) (a b : team_data) : Prop :=
  forall criterion f,
    In criterion tiebreaker_order ->
    criterion_stat criterion = Some f ->
    f a = f b.

(** What a standings row shows of a team. *)
Definition row_view (r : StandingsRow) : string * Z * Z :=
  (row_team r, row_points r, row_goal_diff r).

Definition team_view (t : team_data) : string * Z * Z :=
  (t_name t, t_points t, t_goal_diff t).

Definition stats_view (kv : string * TeamStats) : string * Z * Z :=
  (fst kv, points (snd kv), goal_diff (snd kv)).

(** Three teams with points 6, 6 and 3; the two leaders differ in goal
    difference. *)
Definition leaders_apart : dict TeamStats :=
  [("A"%string, mkStats 6 2 2 0 0 4 1 3 3 3 2 200);
   ("B"%string, mkStats 6 2 2 0 0 3 2 1 3 3 2 200);
   ("C"%string, mkStats 3 2 1 0 1 2 3 (-1) 3 0 0 200)].

(** The same teams with the leaders level on every default criterion. *)
Definition leaders_level : dict TeamStats :=
  [("A"%string, mkStats 6 2 2 0 0 4 1 3 3 3 2 200);
   ("B"%string, mkStats 6 2 2 0 0 4 1 3 3 3 2 200);
   ("C"%string, mkStats 3 2 1 0 1 2 3 (-1) 3 0 0 200)].

(** The winner and the loser of a decisive match. *)
Definition winner_of (m : MatchRecord) : string :=
  if score1 m >? score2 m then team1 m else team2 m.

Definition loser_of (m : MatchRecord) : string :=
  if score1 m >? score2 m then team2 m else team1 m.


(** The same as a function: the ranks of an upset, [None] for any other
    match. *)
Definition upset_of (rank_dict : dict Z) (m : MatchRecord) : option (Z * Z) :=
  if score1 m =? score2 m then None
  else
    match dict_get (winner_of m) rank_dict, dict_get (loser_of m) rank_dict with
    | Some wr, Some lr => if wr >? lr then Some (wr, lr) else None
    | _, _ => None
    end.



(** A small tournament: Delta, ranked 4, beats Alpha, ranked 1. *)
Definition upset_matches : list MatchRecord :=
  [mkMatch "2024-03-01" "Alpha" 3 "Beta" 0 "Arena" 100;
   mkMatch "2024-03-02" "Delta" 2 "Alpha" 1 "Dome" 150;
   mkMatch "2024-03-03" "Gamma" 1 "Beta" 1 "Park" 90].

Definition upset_table : list StandingsRow :=
  [(1, "Alpha", 9, 5); (2, "Beta", 6, 1); (3, "Gamma", 4, 0);
   (4, "Delta", 3, -6)]%string.

(** Filtering the result of an earlier filter call. *)
Definition then_filter (r : option (list MatchRecord)) (criteria : dict value)
  : option (list MatchRecord) :=
  match r with
  | Some ms => filter_matches_by_criteria ms criteria
  | None => None
  end.

Definition recognized_keys : list string :=
  ["team"; "date_from"; "date_to"; "min_attendance"; "max_attendance";
   "min_total_goals"; "stadium"]%string.

Definition recognized (key : string) : bool :=
  existsb (String.eqb key) recognized_keys.

(** The type of value a criterion compares with: the date bounds are
    strings, the attendance and goal bounds are integers. *)
Definition value_fits (key : string) (v : value) : bool :=
  if existsb (String.eqb key) ["date_from"; "date_to"]%string then
    match v with VStr _ => true | VInt _ => false end
  else if existsb (String.eqb key)
            ["min_attendance"; "max_attendance"; "min_total_goals"]%string
  then match v with VInt _ => true | VStr _ => false end
  else true.

Definition well_typed (criteria : dict value) : Prop :=
  forallb (fun kv => value_fits (fst kv) (snd kv)) criteria = true.

(** [{**c1, **c2}]: the union of two keyword dicts. *)
Definition dict_union {V : Type} (c1 c2 : dict V) : dict V :=
  fold_left (fun d kv => dict_set (fst kv) (snd kv) d) c2 c1.

(** No recognised key occurs in both criteria sets. *)
Definition disjoint_recognized (c1 c2 : dict value) : Prop :=
  forall k,
    recognized k = true -> In k (keys c1) -> In k (keys c2) -> False.

(** [cs] holds the recognised entries of [c1] and of [c2], and no other. *)
Definition combines (cs c1 c2 : dict value) : Prop :=
  forall kv,
    recognized (fst kv) = true -> (In kv cs <-> In kv c1 \/ In kv c2).

(** Whether one criterion keeps a match, when its comparison does not
    raise. *)
Definition keep (kv : string * value) (m : MatchRecord) : bool :=
  match criterion_cond (fst kv) (snd kv) with
  | Some cond => match cond m with Some b => b | None => true end
  | None => true
  end.

Definition keep_all (criteria : dict value) (m : MatchRecord) : bool :=
  forallb (fun kv => keep kv m) criteria.

Definition by_team : dict value := [("team"%string, VStr "Alpha")].
Definition by_goals : dict value :=
  [("min_total_goals"%string, VInt 3); ("sort"%string, VStr "date")].

(** The value of a string of decimal digits. *)
Definition decimal_value (s : chars) : Z :=
  fold_left (fun acc c => 10 * acc + digit_value c) s 0.

(** A date of the calendar [datetime.date] implements: years 1 to 9999. *)
Definition real_date (year month day : Z) : bool :=
  (1 <=? year) && (year <=? 9999) && (1 <=? month) && (month <=? 12)
  && (1 <=? day) && (day <=? days_in_month year month).

(** A real calendar date written [YYYY-MM-DD]: four, two and two digits. *)
Definition iso_date (s : chars) : bool :=
  match s with
  | [y1; y2; y3; y4; h1; m1; m2; h2; e1; e2] =>
      forallb is_digit [y1; y2; y3; y4; m1; m2; e1; e2]
      && (h1 =? "-")%char && (h2 =? "-")%char
      && real_date (decimal_value [y1; y2; y3; y4]) (decimal_value [m1; m2])
           (decimal_value [e1; e2])
  | _ => false
  end.



(** A string with no leading or trailing whitespace. *)
Definition trimmed (s : string) : Prop := strip (s2c s) = s2c s.



(** No opening parenthesis of the name can be taken for the start of the
    score: the text after it begins with [:], or its first [:] is directly
    followed by [)].  A name without [(] is of this kind. *)
Definition no_score_start (s : chars) : Prop :=
  forall a1 a2,
    s = a1 ++ "("%char :: a2 ->
    exists u v,
      a2 = u ++ ":"%char :: v
      /\ ~ In ":"%char u
      /\ (u = [] \/ exists v', v = ")"%char :: v').


(** The string does not start with a character of the class. *)
Definition head_not (cls : ascii -> bool) (s : chars) : Prop :=
  match s with
  | [] => True
  | c :: _ => cls c = false
  end.

Definition all_digits (s : chars) : Prop :=
  Forall (fun c => is_digit c = true) s.

(** The team and score block [<team1> (<score1>:<score2>) <team2>]. *)
Definition block (team1 s1 s2 team2 : chars) : chars :=
  team1 ++ [" "; "("]%char ++ s1 ++ [":"%char] ++ s2 ++ [")"; " "]%char
    ++ team2.

(** The four groups of a successful match. *)
Definition four_groups (g1 g2 g3 g4 : chars) : captures :=
  set_group 4 g4
    (set_group 3 g3 (set_group 2 g2 (set_group 1 g1 (fun _ => None)))).

(** A name the format can carry: not empty, no whitespace at either end,
    no newline inside. *)
Definition plain_name (s : chars) : Prop :=
  s <> [] /\ strip s = s /\ ~ In "010"%char s.

(** Reduce the projections of the counters and of the stats. *)
Ltac fields :=
  cbn [c_points c_wins c_draws c_losses c_goals_for c_goals_against
       c_home_points c_away_points c_total_attendance points matches_played
       wins draws losses goals_for goals_against goal_diff home_points
       away_points win_streak total_attendance].


(** What one entry adds to the counters of its team. *)
Definition entry_result (e : entry) : Z * Z * Z * Z :=
  if team_score e >? opponent_score e then (3, 1, 0, 0)
  else if team_score e =? opponent_score e then (1, 0, 1, 0)
  else (0, 0, 0, 1).

Definition entry_points (e : entry) : Z := fst (fst (fst (entry_result e))).
Definition entry_win (e : entry) : Z := snd (fst (fst (entry_result e))).
Definition entry_draw (e : entry) : Z := snd (fst (entry_result e)).
Definition entry_loss (e : entry) : Z := snd (entry_result e).




(** The stats of a team apart from [win_streak], the one field that depends
    on the order of matches of the same date. *)
Definition totals (s : TeamStats) : list Z :=
  [points s; matches_played s; wins s; draws s; losses s; goals_for s;
   goals_against s; goal_diff s; home_points s; away_points s;
   total_attendance s].

(** [a] may stand before [b] in a list sorted by [key] with [lt]: [b] is not
    less than [a]. *)
Definition in_order {A K : Type} (key : A -> K) (lt : K -> K -> bool)
  (a b : A) : Prop :=
  lt (key b) (key a) = false.

(** The order of the standings under the default tie-break order, as the
    rows show it: more points first, then the better goal difference. *)
Definition row_before (r r' : StandingsRow) : Prop :=
  row_points r' < row_points r
  \/ (row_points r' = row_points r /\ row_goal_diff r' <= row_goal_diff r).

(** A criterion name the ranker knows. *)
Definition known_criterion (criterion : string) : bool :=
  match criterion_stat criterion with Some _ => true | None => false end.

(** [x] is the first element of [l] with the greatest value of [f]. *)
Definition first_max {A : Type} (f : A -> Z) (x : A) (l : list A) : Prop :=
  exists pre post,
    l = pre ++ x :: post
    /\ (forall y, In y pre -> f y < f x)
    /\ (forall y, In y post -> f y <= f x).


(** The rank difference the upset loop compares: that of an upset, and the
    loop's initial [-1] for any other match. *)
Definition upset_margin (rank_dict : dict Z) (m : MatchRecord) : Z :=
  match upset_of rank_dict m with
  | Some (wr, lr) => wr - lr
  | None => -1
  end.



(** A match passes the criteria when every recognised comparison can be made
    on it and holds. *)
Definition passes_one (kv : string * value) (m : MatchRecord) : bool :=
  match criterion_cond (fst kv) (snd kv) with
  | Some cond => match cond m with Some true => true | _ => false end
  | None => true
  end.

Definition passes (criteria : dict value) (m : MatchRecord) : bool :=
  forallb (fun kv => passes_one kv m) criteria.

(** [sep.join(fields)] *)
Fixpoint join (sep : chars) (fields : list chars) : chars :=
  match fields with
  | [] => []
  | f :: rest =>
      match rest with
      | [] => f
      | _ :: _ => f ++ sep ++ join sep rest
      end
  end.

(** The line with the given texts in the places of the seven values. *)
Definition line_of (date_str team1 s1 s2 team2 stadium_str attendance_str
                    : chars) : string :=
  c2s (join (s2c " | ")
         [date_str; block team1 s1 s2 team2; stadium_str; attendance_str]).

(** Texts that can stand in the seven places: none holds a [|], the team
    names are plain and the first has no opening parenthesis, the score
    texts are not empty, the first without [:] and the second without [)]. *)
Definition framed (date_str team1 s1 s2 team2 stadium_str attendance_str
                   : chars) : Prop :=
  Forall (fun f => ~ In "|"%char f)
    [date_str; team1; s1; s2; team2; stadium_str; attendance_str]
  /\ plain_name team1 /\ ~ In "("%char team1 /\ plain_name team2
  /\ s1 <> [] /\ ~ In ":"%char s1 /\ s2 <> [] /\ ~ In ")"%char s2.

(** The message of the [ValueError] a call raises, if it raises one. *)
Definition rejected_with (msg : string) (r : parse_result) : Prop :=
  r = ValueError msg.

(** The rank of standard competition ranking: one more than the number of
    teams of the list whose sort key is strictly smaller. *)
Definition strictly_better (tiebreaker_order : list string) (t : team_data)
  (l : list team_data) : list team_data :=
  filter (fun u =>
            tuple_lt (get_sort_key tiebreaker_order u)
              (get_sort_key tiebreaker_order t)) l.

Definition competition_rank (tiebreaker_order : list string) (t : team_data)
  (l : list team_data) : Z :=
  1 + Z.of_nat (List.length (strictly_better tiebreaker_order t l)).

(** What one entry adds to the home points, to the away points and to the
    attendance total of its team. *)
Definition home_share (e : entry) : Z :=
  if is_home e then entry_points e else 0.

Definition away_share (e : entry) : Z :=
  if is_home e then 0 else entry_points e.

Definition entry_attendance (e : entry) : Z := attendance (entry_match e).

(** The totals of a team computed from its entries. *)
Definition entry_sums (es : list entry) : list Z :=
  [sum_over entry_points es; Z.of_nat (List.length es);
   sum_over entry_win es; sum_over entry_draw es; sum_over entry_loss es;
   sum_over team_score es; sum_over opponent_score es;
   sum_over team_score es - sum_over opponent_score es;
   sum_over home_share es; sum_over away_share es;
   sum_over entry_attendance es].

(** * Properties *)

(** ** Stable sorting *)

Section StableSortFacts.
Context {A K : Type}.
Variable key : A -> K.
Variable lt : K -> K -> bool.

Lemma insert_by_perm (x : A) (l : list A) :
  Permutation (insert_by key lt x l) (x :: l).
Proof.
  induction l as [|y l IH]; simpl.
  - apply Permutation_refl.
  - destruct (lt (key y) (key x)).
    + eapply perm_trans; [apply perm_skip, IH | apply perm_swap].
    + apply Permutation_refl.
Qed.

Lemma sort_by_perm (l : list A) : Permutation (sort_by key lt l) l.
Proof.
  induction l as [|x l IH]; simpl.
  - constructor.
  - eapply perm_trans; [apply insert_by_perm | apply perm_skip, IH].
Qed.

Lemma sort_by_length (l : list A) :
  List.length (sort_by key lt l) = List.length l.
Proof. apply Permutation_length, sort_by_perm. Qed.
End StableSortFacts.

(** ** Sums *)


Lemma sum_over_perm {A : Type} (f : A -> Z) (l1 l2 : list A) :
  Permutation l1 l2 -> sum_over f l1 = sum_over f l2.
Proof. induction 1; simpl; lia. Qed.





(** ** The counting loop *)

Lemma count_fold_goals (l : list entry) (c : counters) :
  c_goals_for (fold_left count_step l c) = c_goals_for c + sum_over team_score l
  /\ c_goals_against (fold_left count_step l c)
     = c_goals_against c + sum_over opponent_score l.
Proof.
  revert c; induction l as [|e l IH]; intros c; simpl.
  - lia.
  - destruct (IH (count_step c e)) as [-> ->].
    unfold count_step.
    destruct (team_score e >? opponent_score e);
      [|destruct (team_score e =? opponent_score e)]; fields; lia.
Qed.

Lemma count_step_ok (c : counters) (e : entry) (n : Z) :
  counters_ok c n -> counters_ok (count_step c e) (n + 1).
Proof.
  unfold counters_ok, count_step; intros (Hp & Hn & Hh).
  destruct (team_score e >? opponent_score e);
    [|destruct (team_score e =? opponent_score e)];
    destruct (is_home e); fields; lia.
Qed.

Lemma count_fold_ok (l : list entry) (c : counters) (n : Z) :
  counters_ok c n ->
  counters_ok (fold_left count_step l c) (n + Z.of_nat (List.length l)).
Proof.
  revert c n; induction l as [|e l IH]; intros c n H.
  - simpl. now replace (n + 0) with n by lia.
  - simpl fold_left.
    replace (n + Z.of_nat (List.length (e :: l)))
      with (n + 1 + Z.of_nat (List.length l)) by (simpl List.length; lia).
    apply IH, count_step_ok, H.
Qed.

Lemma team_stats_of_ok (l : list entry) :
  let s := team_stats_of l in
  points s = 3 * wins s + draws s
  /\ wins s + draws s + losses s = matches_played s
  /\ home_points s + away_points s = points s.
Proof.
  assert (H0 : counters_ok counters0 0) by (unfold counters_ok; simpl; lia).
  apply (count_fold_ok l) in H0.
  unfold team_stats_of; fields. exact H0.
Qed.

(** ** The grouping loop *)

Lemma in_calculate (matches_list : list MatchRecord) (t : string)
  (s : TeamStats) :
  In (t, s) (calculate_advanced_team_stats matches_list) ->
  exists es, s = team_stats_of es.
Proof.
  unfold calculate_advanced_team_stats.
  destruct matches_list as [|m ms]; [intros []|].
  intros H. apply in_map_iff in H. destruct H as ([k es] & E & _).
  injection E as _ <-. eauto.
Qed.

Section DictFacts.
Context {V : Type}.

Lemma contains_get (k : string) (d : dict V) :
  contains k d = match dict_get k d with Some _ => true | None => false end.
Proof.
  induction d as [|[k' v] d IH]; simpl; [reflexivity|].
  now destruct (k' =? k)%string.
Qed.

Lemma dict_get_app_last (t k : string) (v : V) (d : dict V) :
  dict_get t (d ++ [(k, v)])
  = match dict_get t d with
    | Some x => Some x
    | None => if (k =? t)%string then Some v else None
    end.
Proof.
  induction d as [|[k' v'] d IH]; simpl; [reflexivity|].
  now destruct (k' =? t)%string.
Qed.

Lemma dict_get_map {W : Type} (g : string * V -> W) (t : string)
  (d : dict V) :
  (forall k v, g (k, v) = g (t, v)) ->
  dict_get t (map (fun kv => (fst kv, g kv)) d)
  = option_map (fun v => g (t, v)) (dict_get t d).
Proof.
  intros Hg. induction d as [|[k' v'] d IH]; simpl; [reflexivity|].
  destruct (k' =? t)%string; simpl; [now rewrite Hg | exact IH].
Qed.
End DictFacts.

Lemma dict_get_add_key (t k : string) (d : dict (list entry)) :
  dict_get t (add_key k d)
  = match dict_get t d with
    | Some x => Some x
    | None => if (k =? t)%string then Some [] else None
    end.
Proof.
  unfold add_key. rewrite contains_get.
  destruct (dict_get k d) eqn:Hk.
  - destruct (dict_get t d) eqn:Ht; [reflexivity|].
    destruct (String.eqb_spec k t) as [->|]; [congruence | reflexivity].
  - apply dict_get_app_last.
Qed.

Lemma dict_get_append_to (t k : string) (e : entry) (d : dict (list entry)) :
  dict_get t (append_to k e d)
  = if (k =? t)%string then option_map (fun v => v ++ [e]) (dict_get t d)
    else dict_get t d.
Proof.
  induction d as [|[k' v] d IH]; simpl.
  - now destruct (k =? t)%string.
  - destruct (String.eqb_spec k' k) as [->|Hk]; simpl.
    + now destruct (k =? t)%string.
    + destruct (String.eqb_spec k' t) as [->|Ht].
      * destruct (String.eqb_spec k t) as [->|]; [congruence | reflexivity].
      * exact IH.
Qed.







Lemma dict_get_group_step (t : string) (d : dict (list entry))
  (m : MatchRecord) (es : list entry) :
  dict_get t d = some_nonempty es ->
  dict_get t (group_step d m) = some_nonempty (es ++ entries_of t [m]).
Proof.
  intros H. unfold group_step.
  rewrite !dict_get_append_to, !dict_get_add_key, H.
  unfold entries_of; simpl. rewrite app_nil_r.
  destruct (team1 m =? t)%string, (team2 m =? t)%string, es as [|e es];
    simpl; try reflexivity; try (rewrite app_nil_r; reflexivity);
    try (now rewrite <- app_assoc);
    try (destruct (es ++ _) eqn:E; [now apply app_eq_nil in E|reflexivity]).
Qed.

Lemma entries_of_cons (t : string) (m : MatchRecord) (l : list MatchRecord) :
  entries_of t (m :: l) = entries_of t [m] ++ entries_of t l.
Proof. unfold entries_of; simpl. now rewrite app_nil_r. Qed.

Lemma dict_get_group_fold (t : string) (l : list MatchRecord)
  (d : dict (list entry)) (es : list entry) :
  dict_get t d = some_nonempty es ->
  dict_get t (fold_left group_step l d) = some_nonempty (es ++ entries_of t l).
Proof.
  revert d es; induction l as [|m l IH]; intros d es H; simpl fold_left.
  - unfold entries_of; simpl. now rewrite app_nil_r.
  - rewrite entries_of_cons, app_assoc.
    apply IH, dict_get_group_step, H.
Qed.

(** The stats stored under team [t] are those of its chronological list. *)
Lemma dict_get_calculate (t : string) (matches_list : list MatchRecord) :
  dict_get t (calculate_advanced_team_stats matches_list)
  = option_map (fun es => team_stats_of (sort_entries es))
      (some_nonempty (entries_of t (sort_matches matches_list))).
Proof.
  unfold calculate_advanced_team_stats.
  destruct matches_list as [|m ms]; [reflexivity|].
  rewrite (dict_get_map (fun kv => team_stats_of (sort_entries (snd kv))));
    [|reflexivity].
  unfold group_matches.
  now rewrite (dict_get_group_fold t _ [] []).
Qed.

(** ** The win streak loop *)



(** ** The aggregator's claims *)


(** C3. Points consistency: every team of the aggregator's output has
    [points = 3 * wins + draws] and [wins + draws + losses = matches_played]. *)
Theorem points_consistency (matches_list : list MatchRecord) (t : string)
  (s : TeamStats) :
  In (t, s) (calculate_advanced_team_stats matches_list) ->
  points s = 3 * wins s + draws s
  /\ wins s + draws s + losses s = matches_played s.
Proof.
  intros H. apply in_calculate in H. destruct H as (es & ->).
  destruct (team_stats_of_ok es) as (Hp & Hn & _). now split.
Qed.

(** C9. Home/away split: every team of the aggregator's output has
    [home_points + away_points = points]. *)
Theorem home_away_split (matches_list : list MatchRecord) (t : string)
  (s : TeamStats) :
  In (t, s) (calculate_advanced_team_stats matches_list) ->
  home_points s + away_points s = points s.
Proof.
  intros H. apply in_calculate in H. destruct H as (es & ->).
  apply team_stats_of_ok.
Qed.




Lemma points_consistency_witness :
  In ("Alpha"%string, mkStats 4 2 1 1 0 3 1 2 4 0 0 220)
    (calculate_advanced_team_stats streak_example)
  /\ 4 = 3 * 1 + 1 /\ 1 + 1 + 0 = 2.
Proof.
  split.
  - vm_compute. left. reflexivity.
  - apply (points_consistency streak_example "Alpha"
             (mkStats 4 2 1 1 0 3 1 2 4 0 0 220)).
    vm_compute. left. reflexivity.
Defined.

Lemma home_away_split_witness :
  In ("Alpha"%string, mkStats 4 2 1 1 0 3 1 2 4 0 0 220)
    (calculate_advanced_team_stats streak_example)
  /\ 4 + 0 = 4.
Proof.
  split.
  - vm_compute. left. reflexivity.
  - apply (home_away_split streak_example "Alpha"
             (mkStats 4 2 1 1 0 3 1 2 4 0 0 220)).
    vm_compute. left. reflexivity.
Defined.

(** ** The ranker *)

Lemma is_tie_cons (c : string) (rest : list string) (a b : team_data) :
  is_tie (c :: rest) a b
  = match criterion_stat c with
    | Some f => (f a =? f b) && is_tie rest a b
    | None => is_tie rest a b
    end.
Proof.
  unfold criterion_stat. simpl.
  destruct (String.eqb_spec c "points") as [->|_];
    [simpl; now destruct (t_points a =? t_points b)|].
  destruct (String.eqb_spec c "goal_diff") as [->|_];
    [simpl; now destruct (t_goal_diff a =? t_goal_diff b)|].
  destruct (String.eqb_spec c "goals_for") as [->|_];
    [simpl; now destruct (t_goals_for a =? t_goals_for b)|].
  destruct (String.eqb_spec c "wins") as [->|_];
    [simpl; now destruct (t_wins a =? t_wins b)|].
  reflexivity.
Qed.

Lemma is_tie_spec (order : list string) (a b : team_data) :
  is_tie order a b = true <-> tied order a b.
Proof.
  induction order as [|c rest IH].
  - split; [intros _ c f [] | reflexivity].
  - rewrite is_tie_cons. split.
    + intros H c' f [<-|Hin] Hf.
      * rewrite Hf in H. apply andb_prop in H. now apply Z.eqb_eq.
      * assert (Hr : is_tie rest a b = true)
          by (destruct (criterion_stat c);
              [now apply andb_prop in H | exact H]).
        apply IH in Hr. exact (Hr c' f Hin Hf).
    + intros H.
      assert (Hr : is_tie rest a b = true).
      { apply IH. intros c' f Hin. apply H. now right. }
      destruct (criterion_stat c) as [f|] eqn:Hf; [|exact Hr].
      rewrite Hr, andb_true_r. apply Z.eqb_eq, (H c); [now left | exact Hf].
Qed.

Lemma rank_loop_view (order : list string) (l : list team_data) (i : Z)
  (prev : team_data) (cr : Z) :
  map row_view (rank_loop order i prev cr l) = map team_view l.
Proof.
  revert i prev cr; induction l as [|t l IH]; intros i prev cr; simpl;
    [reflexivity | now rewrite IH].
Qed.

Lemma assign_ranks_view (order : list string) (l : list team_data) :
  map row_view (assign_ranks order l) = map team_view l.
Proof.
  destruct l as [|t l]; simpl; [reflexivity | now rewrite rank_loop_view].
Qed.

(** Row [j] of the loop: the team at position [j], ranked with its
    predecessor's rank when tied with it and with its own position
    otherwise. *)
Lemma rank_loop_nth (order : list string) (l : list team_data) :
  forall (i : Z) (prev : team_data) (cr : Z) (j : nat) (t : team_data),
    nth_error l j = Some t ->
    exists r,
      nth_error (rank_loop order i prev cr l) j = Some r
      /\ row_view r = team_view t
      /\ match j with
         | O =>
             row_rank r = if is_tie order t prev then cr else i + 1
         | S j' =>
             exists p pr,
               nth_error l j' = Some p
               /\ nth_error (rank_loop order i prev cr l) j' = Some pr
               /\ row_rank r
                  = if is_tie order t p then row_rank pr
                    else i + Z.of_nat j + 1
         end.
Proof.
  induction l as [|t0 l IH]; intros i prev cr j t Hj.
  - now destruct j.
  - destruct j as [|j]; cbn [nth_error] in Hj.
    + injection Hj as ->. cbn [rank_loop nth_error]. eexists. repeat split.
    + destruct (IH (i + 1)
                  t0 (if is_tie order t0 prev then cr else i + 1) j t Hj)
        as (r & Hr & Hv & Hk).
      exists r. cbn [rank_loop nth_error].
      repeat split; [exact Hr | exact Hv |].
      destruct j as [|j'].
      * exists t0. eexists. repeat split.
        rewrite Hk. unfold row_rank; cbn [fst].
        destruct (is_tie order t t0); [reflexivity | lia].
      * destruct Hk as (p & pr & Hp & Hpr & Hk).
        exists p, pr. repeat split; [exact Hp | exact Hpr |].
        rewrite Hk. destruct (is_tie order t p); [reflexivity | lia].
Qed.

Lemma assign_ranks_nth (order : list string) (l : list team_data) (i : nat)
  (t : team_data) :
  nth_error l i = Some t ->
  exists r,
    nth_error (assign_ranks order l) i = Some r
    /\ row_view r = team_view t
    /\ match i with
       | O => row_rank r = 1
       | S j =>
           exists p pr,
             nth_error l j = Some p
             /\ nth_error (assign_ranks order l) j = Some pr
             /\ row_rank r
                = if is_tie order t p then row_rank pr else Z.of_nat i + 1
       end.
Proof.
  destruct l as [|t0 rest]; [now destruct i|].
  destruct i as [|j]; cbn [nth_error assign_ranks]; intros H.
  - injection H as ->. eexists. repeat split.
  - destruct (rank_loop_nth order rest 1 t0 1 j t H) as (r & Hr & Hv & Hk).
    exists r. repeat split; [exact Hr | exact Hv |].
    destruct j as [|j'].
    + exists t0. eexists. repeat split. rewrite Hk.
      unfold row_rank; cbn [fst]. destruct (is_tie order t t0); reflexivity.
    + destruct Hk as (p & pr & Hp & Hpr & Hk).
      exists p, pr. repeat split; [exact Hp | exact Hpr |].
      rewrite Hk. destruct (is_tie order t p); [reflexivity | lia].
Qed.

Lemma rank_teams_advanced_eq (team_stats : dict TeamStats)
  (order : option (list string)) :
  rank_teams_advanced team_stats order
  = assign_ranks (active_order order)
      (sort_teams (active_order order) (map make_team_data team_stats)).
Proof. destruct team_stats; reflexivity. Qed.

(** C1 (amended). The ranker assigns 1-based competition ranks: the rows
    follow the sorted sequence; the first row has rank 1; a team tied with
    its immediate predecessor on every criterion of the active tie-break
    list shares that predecessor's rank, and a team that is not tied gets its
    own 1-based position.  For three teams with points 6, 6 and 3 under the
    default order, the ranks are 1, 1, 3 when the two teams with 6 points
    also have the same goal difference and the same goals scored. *)
Theorem competition_ranks :
  (forall (team_stats : dict TeamStats) (order : option (list string)),
      let o := active_order order in
      let sorted := sort_teams o (map make_team_data team_stats) in
      let rows := rank_teams_advanced team_stats order in
      List.length rows = List.length sorted
      /\ forall (i : nat) (t : team_data),
          nth_error sorted i = Some t ->
          exists r,
            nth_error rows i = Some r
            /\ row_team r = t_name t
            /\ match i with
               | O => row_rank r = 1
               | S j =>
                   exists p pr,
                     nth_error sorted j = Some p
                     /\ nth_error rows j = Some pr
                     /\ (tied o t p -> row_rank r = row_rank pr)
                     /\ (~ tied o t p -> row_rank r = Z.of_nat i + 1)
               end)
  /\ (forall (n1 n2 n3 : string) (s1 s2 s3 : TeamStats),
         points s1 = 6 -> points s2 = 6 -> points s3 = 3 ->
         goal_diff s1 = goal_diff s2 ->
         goals_for s1 = goals_for s2 ->
         map row_rank
           (rank_teams_advanced [(n1, s1); (n2, s2); (n3, s3)] None)
         = [1; 1; 3]).
Proof.
  split.
  - intros ts order o sorted rows. subst rows.
    rewrite rank_teams_advanced_eq. fold o. fold sorted. split.
    + rewrite <- (length_map row_view), assign_ranks_view. apply length_map.
    + intros i t Hi.
      destruct (assign_ranks_nth o sorted i t Hi) as (r & Hr & Hv & Hk).
      exists r. split; [exact Hr|]. split; [now injection Hv|].
      destruct i as [|j]; [exact Hk|].
      destruct Hk as (p & pr & Hp & Hpr & Hk).
      exists p, pr. repeat split; [exact Hp | exact Hpr | |].
      * intros T. apply is_tie_spec in T. now rewrite T in Hk.
      * intros T. destruct (is_tie o t p) eqn:E; [|exact Hk].
        apply is_tie_spec in E. contradiction.
  - intros n1 n2 n3 s1 s2 s3 H1 H2 H3 Hgd Hgf.
    unfold rank_teams_advanced, sort_teams, make_team_data. simpl.
    rewrite H1, H2, H3, Hgd, Hgf. simpl.
    rewrite !Z.eqb_refl. simpl. rewrite !Z.eqb_refl. reflexivity.
Qed.

Lemma competition_ranks_witness :
  map row_rank (rank_teams_advanced leaders_level None) = [1; 1; 3].
Proof.
  apply (proj2 competition_ranks "A"%string "B"%string "C"%string
           (mkStats 6 2 2 0 0 4 1 3 3 3 2 200)
           (mkStats 6 2 2 0 0 4 1 3 3 3 2 200)
           (mkStats 3 2 1 0 1 2 3 (-1) 3 0 0 200));
    reflexivity.
Defined.

(** C1, as stated, fails: points 6, 6, 3 alone do not give ranks 1, 1, 3
    under the default order, which also compares the goal difference. *)
Lemma points_663_ranks_123 :
  map (fun kv => points (snd kv)) leaders_apart = [6; 6; 3]
  /\ map row_rank (rank_teams_advanced leaders_apart None) = [1; 2; 3]
  /\ map row_rank (rank_teams_advanced leaders_apart None) <> [1; 1; 3].
Proof. repeat split. discriminate. Qed.

Lemma dict_get_in {V : Type} (k : string) (v : V) (d : dict V) :
  NoDup (keys d) -> In (k, v) d -> dict_get k d = Some v.
Proof.
  induction d as [|[k' v'] d IH]; simpl; [intros _ []|].
  intros Hnd [E|Hin].
  - injection E as -> ->. now rewrite String.eqb_refl.
  - inversion Hnd as [|? ? Hni Hnd']; subst.
    destruct (String.eqb_spec k' k) as [->|_]; [|now apply IH].
    exfalso. apply Hni. unfold keys. change k with (fst (k, v)).
    now apply in_map.
Qed.

(** C10. Standings completeness: the ranker returns one row per team of the
    mapping, every team name exactly once, and each row carries the points
    and the goal difference the mapping holds for its team. *)
Theorem standings_complete (team_stats : dict TeamStats)
  (order : option (list string)) :
  NoDup (keys team_stats) ->
  let rows := rank_teams_advanced team_stats order in
  List.length rows = List.length team_stats
  /\ Permutation (map row_team rows) (keys team_stats)
  /\ NoDup (map row_team rows)
  /\ forall r,
      In r rows ->
      exists s,
        dict_get (row_team r) team_stats = Some s
        /\ row_points r = points s
        /\ row_goal_diff r = goal_diff s.
Proof.
  intros Hnd rows.
  assert (Hv : Permutation (map row_view rows) (map stats_view team_stats)).
  { subst rows. rewrite rank_teams_advanced_eq, assign_ranks_view.
    replace (map stats_view team_stats)
      with (map team_view (map make_team_data team_stats))
      by (rewrite map_map; reflexivity).
    apply Permutation_map, sort_by_perm. }
  assert (Ht : Permutation (map row_team rows) (keys team_stats)).
  { apply (Permutation_map (fun v => fst (fst v))) in Hv.
    rewrite !map_map in Hv. exact Hv. }
  split; [|split; [exact Ht | split]].
  - rewrite <- (length_map row_view rows), <- (length_map stats_view).
    apply Permutation_length, Hv.
  - apply Permutation_sym in Ht. exact (Permutation_NoDup Ht Hnd).
  - intros r Hr.
    assert (Hin : In (row_view r) (map stats_view team_stats)).
    { apply (Permutation_in _ Hv). now apply in_map. }
    apply in_map_iff in Hin. destruct Hin as ([k s] & E & Hks).
    unfold stats_view, row_view in E. simpl in E. injection E as E1 E2 E3.
    exists s. rewrite <- E1, <- E2, <- E3. repeat split.
    now apply dict_get_in.
Qed.

Lemma standings_complete_witness :
  let rows := rank_teams_advanced leaders_apart None in
  List.length rows = 3%nat
  /\ Permutation (map row_team rows) ["A"; "B"; "C"]%string
  /\ NoDup (map row_team rows)
  /\ forall r,
      In r rows ->
      exists s,
        dict_get (row_team r) leaders_apart = Some s
        /\ row_points r = points s
        /\ row_goal_diff r = goal_diff s.
Proof.
  apply (standings_complete leaders_apart None).
  repeat constructor; simpl; intuition discriminate.
Defined.

(** ** The reporter *)


(** One iteration of the loop, in terms of [upset_of]. *)
Lemma upset_step_eq (rank_dict : dict Z) (st : option upset * Z)
  (m : MatchRecord) :
  upset_step rank_dict st m
  = match upset_of rank_dict m with
    | Some (wr, lr) =>
        if wr - lr >? snd st then (Some (mkUpset m wr lr), wr - lr) else st
    | None => st
    end.
Proof.
  unfold upset_step, upset_of, winner_of, loser_of.
  destruct (score1 m =? score2 m); [reflexivity|].
  rewrite !contains_get.
  destruct (score1 m >? score2 m);
    destruct (dict_get (team1 m) rank_dict) as [r1|];
    destruct (dict_get (team2 m) rank_dict) as [r2|]; simpl;
    try reflexivity.
  - now destruct (r1 >? r2).
  - now destruct (r2 >? r1).
Qed.




Lemma dict_get_set {V : Type} (t k : string) (v : V) (d : dict V) :
  dict_get t (dict_set k v d)
  = if (k =? t)%string then Some v else dict_get t d.
Proof.
  induction d as [|[k' v'] d IH]; simpl.
  - reflexivity.
  - destruct (String.eqb_spec k' k) as [->|Hk]; simpl.
    + now destruct (k =? t)%string.
    + destruct (String.eqb_spec k' t) as [->|Ht]; [|exact IH].
      destruct (String.eqb_spec k t) as [->|]; [congruence | reflexivity].
Qed.

(** The rank map holds, for every team of the standings, the rank of its
    row (of its last row, should a team have several). *)
Lemma build_rank_dict_app (table : list StandingsRow) (r : StandingsRow)
  (t : string) :
  dict_get t (build_rank_dict (table ++ [r]))
  = if (row_team r =? t)%string then Some (row_rank r)
    else dict_get t (build_rank_dict table).
Proof.
  unfold build_rank_dict. rewrite fold_left_app. simpl. apply dict_get_set.
Qed.

Lemma rank_dict_teams (table : list StandingsRow) (t : string) :
  contains t (build_rank_dict table) = true <-> In t (map row_team table).
Proof.
  rewrite contains_get.
  induction table as [|r table IH] using rev_ind; [simpl; intuition discriminate|].
  rewrite build_rank_dict_app, map_app, in_app_iff. simpl.
  destruct (String.eqb_spec (row_team r) t) as [E|E]; [intuition|].
  rewrite IH. intuition.
Qed.

Lemma rank_dict_get (table : list StandingsRow) (r : StandingsRow) :
  NoDup (map row_team table) ->
  In r table ->
  dict_get (row_team r) (build_rank_dict table) = Some (row_rank r).
Proof.
  induction table as [|r' table IH] using rev_ind; [intros _ []|].
  rewrite map_app. simpl. intros Hnd Hin.
  rewrite build_rank_dict_app.
  apply NoDup_remove in Hnd. rewrite app_nil_r in Hnd.
  destruct Hnd as [Hnd Hni].
  apply in_app_or in Hin. destruct Hin as [Hin|[<-|[]]].
  - destruct (String.eqb_spec (row_team r') (row_team r)) as [E|_].
    + exfalso. apply Hni. rewrite E. now apply in_map.
    + now apply IH.
  - now rewrite String.eqb_refl.
Qed.



(** The scenario: the rank-4 team beats the rank-1 team. *)
Example biggest_upset_scenario :
  biggest_upset
    (generate_analytics_report upset_matches leaders_apart upset_table)
  = Some (mkUpset (mkMatch "2024-03-02" "Delta" 2 "Alpha" 1 "Dome" 150) 4 1).
Proof. reflexivity. Qed.

(** ** The filter *)

Lemma filter_loop_nil (criteria : dict value) :
  filter_loop [] criteria = Some [].
Proof.
  induction criteria as [|kv c IH]; simpl; [reflexivity|].
  unfold filter_step. now destruct (criterion_cond (fst kv) (snd kv)).
Qed.

Lemma filter_matches_eq (ms : list MatchRecord) (criteria : dict value) :
  filter_matches_by_criteria ms criteria = filter_loop ms criteria.
Proof. destruct ms; [symmetry; apply filter_loop_nil | reflexivity]. Qed.

Lemma filter_loop_app (ms : list MatchRecord) (c1 c2 : dict value) :
  filter_loop ms (c1 ++ c2)
  = match filter_loop ms c1 with
    | Some r => filter_loop r c2
    | None => None
    end.
Proof.
  revert ms; induction c1 as [|kv c1 IH]; intros ms; simpl; [reflexivity|].
  destruct (filter_step ms kv); [apply IH | reflexivity].
Qed.

(** Applying one criteria dict after another is applying their
    concatenation, also when a comparison raises. *)
Lemma filter_sequential (ms : list MatchRecord) (c1 c2 : dict value) :
  filter_matches_by_criteria ms (c1 ++ c2)
  = then_filter (filter_matches_by_criteria ms c1) c2.
Proof.
  unfold then_filter. rewrite !filter_matches_eq, filter_loop_app.
  destruct (filter_loop ms c1); [now rewrite filter_matches_eq | reflexivity].
Qed.

Lemma comprehension_total (cond : MatchRecord -> option bool)
  (ms : list MatchRecord) :
  (forall m, cond m <> None) ->
  comprehension cond ms
  = Some (filter (fun m => match cond m with Some b => b | None => true end) ms).
Proof.
  intros H. induction ms as [|m ms IH]; simpl; [reflexivity|].
  rewrite IH. destruct (cond m) as [[|]|] eqn:E; try reflexivity.
  now apply H in E.
Qed.

Lemma cond_total (key : string) (v : value)
  (cond : MatchRecord -> option bool) (m : MatchRecord) :
  value_fits key v = true ->
  criterion_cond key v = Some cond ->
  cond m <> None.
Proof.
  unfold value_fits, criterion_cond. simpl.
  destruct (String.eqb_spec key "team") as [->|_];
    [simpl; intros _ E; injection E as <-; destruct v; simpl;
     [destruct (team1 m =? s)%string|]; discriminate|].
  destruct (String.eqb_spec key "date_from") as [->|_];
    [simpl; intros F E; injection E as <-; destruct v; discriminate|].
  destruct (String.eqb_spec key "date_to") as [->|_];
    [simpl; intros F E; injection E as <-; destruct v; discriminate|].
  destruct (String.eqb_spec key "min_attendance") as [->|_];
    [simpl; intros F E; injection E as <-; destruct v; discriminate|].
  destruct (String.eqb_spec key "max_attendance") as [->|_];
    [simpl; intros F E; injection E as <-; destruct v; discriminate|].
  destruct (String.eqb_spec key "min_total_goals") as [->|_];
    [simpl; intros F E; injection E as <-; destruct v; discriminate|].
  destruct (String.eqb_spec key "stadium") as [->|_];
    [simpl; intros F E; injection E as <-; destruct v; discriminate|].
  discriminate.
Qed.

Lemma unrecognized_cond (key : string) (v : value) :
  recognized key = false -> criterion_cond key v = None.
Proof.
  unfold recognized, criterion_cond. simpl.
  destruct (key =? "team")%string; [discriminate|].
  destruct (key =? "date_from")%string; [discriminate|].
  destruct (key =? "date_to")%string; [discriminate|].
  destruct (key =? "min_attendance")%string; [discriminate|].
  destruct (key =? "max_attendance")%string; [discriminate|].
  destruct (key =? "min_total_goals")%string; [discriminate|].
  destruct (key =? "stadium")%string; [discriminate|].
  reflexivity.
Qed.

Lemma filter_step_total (ms : list MatchRecord) (kv : string * value) :
  value_fits (fst kv) (snd kv) = true ->
  filter_step ms kv = Some (filter (keep kv) ms).
Proof.
  intros F. unfold filter_step, keep.
  destruct (criterion_cond (fst kv) (snd kv)) as [cond|] eqn:E.
  - apply comprehension_total. intros m. exact (cond_total _ _ _ m F E).
  - f_equal. induction ms as [|m ms IH]; simpl; [reflexivity | now f_equal].
Qed.

Lemma filter_filter {A : Type} (p q : A -> bool) (l : list A) :
  filter p (filter q l) = filter (fun x => q x && p x) l.
Proof.
  induction l as [|x l IH]; simpl; [reflexivity|].
  destruct (q x); simpl; [destruct (p x)|]; now rewrite IH.
Qed.

Lemma filter_loop_total (ms : list MatchRecord) (criteria : dict value) :
  well_typed criteria ->
  filter_loop ms criteria = Some (filter (keep_all criteria) ms).
Proof.
  unfold well_typed, keep_all.
  revert ms; induction criteria as [|kv c IH]; intros ms H; simpl.
  - f_equal. induction ms as [|m ms IHm]; simpl; [reflexivity | now f_equal].
  - simpl in H. apply andb_prop in H. destruct H as [Hkv Hc].
    rewrite (filter_step_total ms kv Hkv), (IH _ Hc).
    now rewrite filter_filter.
Qed.

Lemma keep_unrecognized (kv : string * value) (m : MatchRecord) :
  recognized (fst kv) = false -> keep kv m = true.
Proof. intros H. unfold keep. now rewrite unrecognized_cond. Qed.

Lemma keep_all_spec (criteria : dict value) (m : MatchRecord) :
  keep_all criteria m = true
  <-> forall kv,
      In kv criteria -> recognized (fst kv) = true -> keep kv m = true.
Proof.
  unfold keep_all. rewrite forallb_forall. split.
  - intros H kv Hin _. now apply H.
  - intros H kv Hin. destruct (recognized (fst kv)) eqn:R;
      [now apply H | now apply keep_unrecognized].
Qed.

Lemma keep_all_combines (cs c1 c2 : dict value) (m : MatchRecord) :
  combines cs c1 c2 ->
  keep_all cs m = keep_all c1 m && keep_all c2 m.
Proof.
  intros C. apply eq_true_iff_eq.
  rewrite andb_true_iff, !keep_all_spec. split.
  - intros H. split; intros kv Hin R; apply H; auto; apply C; auto.
  - intros [H1 H2] kv Hin R. apply C in Hin; [|exact R].
    destruct Hin; auto.
Qed.

Lemma well_typed_spec (criteria : dict value) :
  well_typed criteria
  <-> forall kv, In kv criteria -> value_fits (fst kv) (snd kv) = true.
Proof. unfold well_typed. apply forallb_forall. Qed.

Lemma value_fits_unrecognized (key : string) (v : value) :
  recognized key = false -> value_fits key v = true.
Proof.
  unfold recognized, value_fits. simpl.
  destruct (key =? "team")%string; [discriminate|].
  destruct (key =? "date_from")%string; [discriminate|].
  destruct (key =? "date_to")%string; [discriminate|].
  destruct (key =? "min_attendance")%string; [discriminate|].
  destruct (key =? "max_attendance")%string; [discriminate|].
  destruct (key =? "min_total_goals")%string; [discriminate|].
  reflexivity.
Qed.

(** Filtering with well-typed criteria keeps the matches that pass every
    recognised criterion, so it depends only on the set of those entries. *)
Lemma filter_combines (ms : list MatchRecord) (cs c1 c2 : dict value) :
  combines cs c1 c2 ->
  well_typed c1 ->
  well_typed c2 ->
  exists r,
    then_filter (filter_matches_by_criteria ms c1) c2 = Some r
    /\ filter_matches_by_criteria ms cs = Some r.
Proof.
  intros C W1 W2.
  assert (W : well_typed cs).
  { apply well_typed_spec. intros kv Hin.
    destruct (recognized (fst kv)) eqn:R;
      [|now apply value_fits_unrecognized].
    apply C in Hin; [|exact R].
    destruct Hin as [Hin|Hin];
      [apply (proj1 (well_typed_spec c1) W1) | apply (proj1 (well_typed_spec c2) W2)];
      exact Hin. }
  exists (filter (keep_all cs) ms). split.
  - unfold then_filter.
    rewrite !filter_matches_eq, (filter_loop_total _ _ W1),
      filter_matches_eq, (filter_loop_total _ _ W2), filter_filter.
    f_equal. apply filter_ext. intros m. symmetry.
    now apply keep_all_combines.
  - now rewrite filter_matches_eq, filter_loop_total.
Qed.

(** *** The union of two dicts *)

Lemma keys_dict_set {V : Type} (k : string) (v : V) (d : dict V) :
  keys (dict_set k v d) = if contains k d then keys d else keys d ++ [k].
Proof.
  induction d as [|[k' v'] d IH]; simpl; [reflexivity|].
  destruct (k' =? k)%string; simpl; [reflexivity|].
  rewrite IH. now destruct (contains k d).
Qed.

Lemma contains_keys {V : Type} (k : string) (d : dict V) :
  contains k d = true <-> In k (keys d).
Proof.
  induction d as [|[k' v'] d IH]; simpl; [intuition discriminate|].
  destruct (String.eqb_spec k' k) as [->|N]; [intuition|].
  rewrite IH. intuition.
Qed.

Lemma NoDup_dict_set {V : Type} (k : string) (v : V) (d : dict V) :
  NoDup (keys d) -> NoDup (keys (dict_set k v d)).
Proof.
  intros H. rewrite keys_dict_set.
  destruct (contains k d) eqn:E; [exact H|].
  apply NoDup_app; [exact H | repeat constructor; intros [] |].
  intros x Hx [<-|[]]. apply contains_keys in Hx. congruence.
Qed.

Lemma in_dict_get {V : Type} (k : string) (v : V) (d : dict V) :
  dict_get k d = Some v -> In (k, v) d.
Proof.
  induction d as [|[k' v'] d IH]; simpl; [discriminate|].
  destruct (String.eqb_spec k' k) as [->|N]; intros H;
    [injection H as ->; now left | right; now apply IH].
Qed.

Lemma dict_get_none {V : Type} (k : string) (d : dict V) :
  dict_get k d = None <-> ~ In k (keys d).
Proof.
  rewrite <- contains_keys, contains_get.
  destruct (dict_get k d); intuition discriminate.
Qed.

Lemma dict_union_facts {V : Type} (c2 c1 : dict V) :
  NoDup (keys c1) ->
  NoDup (keys c2) ->
  NoDup (keys (dict_union c1 c2))
  /\ forall t,
      dict_get t (dict_union c1 c2)
      = match dict_get t c2 with
        | Some v => Some v
        | None => dict_get t c1
        end.
Proof.
  unfold dict_union.
  revert c1; induction c2 as [|[k v] c2 IH]; intros c1 H1 H2; simpl.
  - split; [exact H1 | reflexivity].
  - inversion H2 as [|? ? Hni H2']; subst.
    destruct (IH (dict_set k v c1) (NoDup_dict_set k v c1 H1) H2') as [Hn Hg].
    split; [exact Hn|]. intros t. rewrite Hg, dict_get_set.
    destruct (String.eqb_spec k t) as [<-|N]; [|reflexivity].
    now rewrite (proj2 (dict_get_none k c2) Hni).
Qed.

Lemma dict_union_combines (c1 c2 : dict value) :
  NoDup (keys c1) ->
  NoDup (keys c2) ->
  disjoint_recognized c1 c2 ->
  combines (dict_union c1 c2) c1 c2 /\ combines (dict_union c2 c1) c1 c2.
Proof.
  intros H1 H2 D.
  destruct (dict_union_facts c2 c1 H1 H2) as [N12 G12].
  destruct (dict_union_facts c1 c2 H2 H1) as [N21 G21].
  assert (K : forall (d : dict value) k v, In (k, v) d -> In k (keys d)).
  { intros d k v Hin. unfold keys. change k with (fst (k, v)).
    now apply in_map. }
  split; intros [k v] R; simpl in R.
  - split.
    + intros Hin. apply (dict_get_in _ _ _ N12) in Hin. rewrite G12 in Hin.
      destruct (dict_get k c2) eqn:E2.
      * injection Hin as ->. right. now apply in_dict_get.
      * left. now apply in_dict_get.
    + intros Hin. apply in_dict_get. rewrite G12.
      destruct Hin as [Hin|Hin].
      * assert (E2 : dict_get k c2 = None).
        { apply dict_get_none. intros Hk. exact (D k R (K _ _ _ Hin) Hk). }
        rewrite E2. now apply dict_get_in.
      * now rewrite (dict_get_in _ _ _ H2 Hin).
  - split.
    + intros Hin. apply (dict_get_in _ _ _ N21) in Hin. rewrite G21 in Hin.
      destruct (dict_get k c1) eqn:E1.
      * injection Hin as ->. left. now apply in_dict_get.
      * right. now apply in_dict_get.
    + intros Hin. apply in_dict_get. rewrite G21.
      destruct Hin as [Hin|Hin].
      * now rewrite (dict_get_in _ _ _ H1 Hin).
      * assert (E1 : dict_get k c1 = None).
        { apply dict_get_none. intros Hk. exact (D k R Hk (K _ _ _ Hin)). }
        rewrite E1. now apply dict_get_in.
Qed.

Lemma dict_set_new {V : Type} (k : string) (v : V) (d : dict V) :
  ~ In k (keys d) -> dict_set k v d = d ++ [(k, v)].
Proof.
  induction d as [|[k' v'] d IH]; simpl; intros H; [reflexivity|].
  destruct (String.eqb_spec k' k) as [E|_]; [exfalso; apply H; now left|].
  rewrite IH; [reflexivity|]. intros Hin. apply H. now right.
Qed.

(** With no key in common the union lists the first dict, then the
    second. *)
Lemma dict_union_disjoint {V : Type} (c2 c1 : dict V) :
  (forall k, In k (keys c1) -> In k (keys c2) -> False) ->
  NoDup (keys c2) ->
  dict_union c1 c2 = c1 ++ c2.
Proof.
  unfold dict_union.
  revert c1; induction c2 as [|[k v] c2 IH]; intros c1 D H2; simpl.
  - now rewrite app_nil_r.
  - inversion H2 as [|? ? Hni H2']; subst.
    rewrite dict_set_new by (intros Hin; apply (D k Hin); now left).
    rewrite IH; [now rewrite <- app_assoc | | exact H2'].
    intros k' Hin Hin2. unfold keys in Hin. rewrite map_app in Hin.
    apply in_app_or in Hin. destruct Hin as [Hin|[<-|[]]].
    + apply (D k' Hin). now right.
    + contradiction.
Qed.

(** C7. Filter composition: for two criteria dicts whose recognised keys are
    disjoint, filtering with the first and then filtering the result with
    the second gives the list that one call with the union of both gives.
    When the dicts share no key at all this needs nothing more; in general,
    and whichever dict the union starts from, it holds for values of the
    type each key compares with (the others raise [TypeError]). *)
Theorem filter_composition (ms : list MatchRecord) (c1 c2 : dict value) :
  NoDup (keys c1) ->
  NoDup (keys c2) ->
  disjoint_recognized c1 c2 ->
  ((forall k, In k (keys c1) -> In k (keys c2) -> False) ->
   filter_matches_by_criteria ms (dict_union c1 c2)
   = then_filter (filter_matches_by_criteria ms c1) c2)
  /\ (well_typed c1 ->
      well_typed c2 ->
      exists r,
        then_filter (filter_matches_by_criteria ms c1) c2 = Some r
        /\ filter_matches_by_criteria ms (dict_union c1 c2) = Some r
        /\ filter_matches_by_criteria ms (dict_union c2 c1) = Some r).
Proof.
  intros H1 H2 D. split.
  - intros Dall. rewrite (dict_union_disjoint c2 c1 Dall H2).
    apply filter_sequential.
  - intros W1 W2.
    destruct (dict_union_combines c1 c2 H1 H2 D) as [C12 C21].
    destruct (filter_combines ms _ c1 c2 C12 W1 W2) as (r & Hr & H12).
    destruct (filter_combines ms _ c1 c2 C21 W1 W2) as (r' & Hr' & H21).
    exists r. repeat split; [exact Hr | exact H12 |].
    rewrite H21. congruence.
Qed.

Lemma filter_composition_witness :
  exists r,
    then_filter (filter_matches_by_criteria upset_matches by_team) by_goals
    = Some r
    /\ filter_matches_by_criteria upset_matches (dict_union by_team by_goals)
       = Some r
    /\ filter_matches_by_criteria upset_matches (dict_union by_goals by_team)
       = Some r.
Proof.
  apply (filter_composition upset_matches by_team by_goals).
  - repeat constructor; simpl; intuition discriminate.
  - repeat constructor; simpl; intuition discriminate.
  - intros k _ [<-|[]] [E|[E|[]]]; discriminate.
  - reflexivity.
  - reflexivity.
Defined.

(** ** The parser *)

(** *** Characters and strings *)



Lemma digit_not_space (c : ascii) : is_digit c = true -> is_space c = false.
Proof.
  destruct c as [[] [] [] [] [] [] [] []]; try discriminate; reflexivity.
Qed.

Lemma digit_neq (c x : ascii) :
  is_digit c = true -> is_digit x = false -> (c =? x)%char = false.
Proof.
  intros Hc Hx. destruct (Ascii.eqb_spec c x) as [->|]; congruence.
Qed.

(** *** [strip] *)

Lemma lstrip_head (c : ascii) (s : chars) :
  is_space c = false -> lstrip (c :: s) = c :: s.
Proof. intros H. simpl. now rewrite H. Qed.

Lemma lstrip_length (s : chars) : (List.length (lstrip s) <= List.length s)%nat.
Proof.
  induction s as [|c s IH]; simpl; [lia|].
  destruct (is_space c); simpl; lia.
Qed.

Lemma lstrip_fixed (s : chars) : lstrip s = s -> head_not is_space s.
Proof.
  destruct s as [|c s]; simpl; [trivial|].
  destruct (is_space c) eqn:E; [|reflexivity].
  intros H. pose proof (lstrip_length s) as L. rewrite H in L. simpl in L. lia.
Qed.

Lemma rstrip_length (s : chars) : (List.length (rstrip s) <= List.length s)%nat.
Proof.
  unfold rstrip. rewrite length_rev.
  pose proof (lstrip_length (rev s)) as L. now rewrite length_rev in L.
Qed.

Lemma rstrip_last (s : chars) (c : ascii) :
  is_space c = false -> rstrip (s ++ [c]) = s ++ [c].
Proof.
  intros H. unfold rstrip. rewrite rev_app_distr. simpl.
  rewrite H. simpl. now rewrite rev_involutive.
Qed.

(** A string that starts and ends with a character that is not whitespace
    is left as it is. *)
Lemma strip_id (c d : ascii) (s t : chars) :
  is_space c = false -> is_space d = false ->
  c :: s = t ++ [d] -> strip (c :: s) = c :: s.
Proof.
  intros Hc Hd E. unfold strip. rewrite (lstrip_head c s Hc), E.
  now apply rstrip_last.
Qed.

(** What a trimmed, non-empty string looks like. *)
Lemma trimmed_ends (s : chars) :
  s <> [] -> strip s = s ->
  (exists c s', s = c :: s' /\ is_space c = false)
  /\ (exists s' d, s = s' ++ [d] /\ is_space d = false).
Proof.
  intros Hne H.
  assert (Hl : lstrip s = s).
  { unfold strip in H. pose proof (rstrip_length (lstrip s)) as L1.
    rewrite H in L1. pose proof (lstrip_length s) as L2.
    destruct s as [|c s]; [reflexivity|]. simpl in *.
    destruct (is_space c); [|reflexivity].
    pose proof (lstrip_length s). lia. }
  split.
  - destruct s as [|c s]; [contradiction|].
    exists c, s. split; [reflexivity | exact (lstrip_fixed _ Hl)].
  - unfold strip in H. rewrite Hl in H. unfold rstrip in H.
    assert (Hr : lstrip (rev s) = rev s).
    { rewrite <- H at 2. now rewrite rev_involutive. }
    apply lstrip_fixed in Hr.
    destruct (rev s) as [|d r] eqn:E.
    + apply (f_equal (@rev ascii)) in E. rewrite rev_involutive in E.
      contradiction.
    + exists (rev r), d. split; [|exact Hr].
      apply (f_equal (@rev ascii)) in E. now rewrite rev_involutive in E.
Qed.

(** *** [split] *)

Lemma starts_with_app (p s r : chars) :
  starts_with p s = Some r -> s = p ++ r.
Proof.
  revert s; induction p as [|c p IH]; intros s; simpl.
  - now intros [= ->].
  - destruct s as [|d s]; [discriminate|].
    destruct (Ascii.eqb_spec c d) as [->|]; [|discriminate].
    intros H. now rewrite (IH _ H).
Qed.

Lemma find_sep_app (sep s a b : chars) :
  find_sep sep s = Some (a, b) -> s = a ++ sep ++ b.
Proof.
  revert a; induction s as [|c s IH]; intros a; simpl.
  - destruct (starts_with sep []) eqn:E; [|discriminate].
    intros [= <- <-]. now apply starts_with_app in E.
  - destruct (starts_with sep (c :: s)) eqn:E.
    + intros [= <- <-]. now apply starts_with_app in E.
    + destruct (find_sep sep s) as [[a' b']|]; [|discriminate].
      intros [= <- <-]. simpl. f_equal. now apply IH.
Qed.

(** More rounds than characters change nothing. *)
Lemma split_rounds_enough (sep : chars) :
  sep <> [] ->
  forall (n m : nat) (s : chars),
    (List.length s <= n)%nat -> (List.length s <= m)%nat ->
    split_rounds n sep s = split_rounds m sep s.
Proof.
  intros Hsep.
  assert (Hnil : forall k, split_rounds k sep [] = [[]]).
  { intros [|k]; simpl; [reflexivity|].
    destruct sep; [contradiction | reflexivity]. }
  induction n as [|n IH]; intros m s Hn Hm.
  - destruct s; [|simpl in Hn; lia]. now rewrite !Hnil.
  - destruct m as [|m].
    + destruct s; [|simpl in Hm; lia]. now rewrite !Hnil.
    + simpl. destruct (find_sep sep s) as [[a b]|] eqn:E; [|reflexivity].
      f_equal. pose proof (find_sep_app _ _ _ _ E) as ->.
      rewrite !length_app in Hn, Hm.
      assert (List.length sep <> 0)%nat by (destruct sep; simpl; congruence).
      apply IH; lia.
Qed.

Lemma split_eq (sep s : chars) :
  sep <> [] ->
  split sep s
  = match find_sep sep s with
    | Some (a, b) => a :: split sep b
    | None => [s]
    end.
Proof.
  intros Hsep. unfold split.
  destruct (find_sep sep s) as [[a b]|] eqn:E.
  - rewrite (split_rounds_enough sep Hsep _ (S (List.length s)) s);
      [|lia|lia].
    simpl. rewrite E. f_equal.
    pose proof (find_sep_app _ _ _ _ E) as ->.
    rewrite !length_app.
    apply split_rounds_enough; [exact Hsep | lia | lia].
  - destruct (List.length s); simpl; [reflexivity | now rewrite E].
Qed.

(** The separators of the line format and of the date. *)
Lemma starts_with_bar_none (s : chars) :
  match s with
  | _ :: x :: _ => x <> "|"%char
  | _ => True
  end ->
  starts_with (s2c " | ") s = None.
Proof.
  change (s2c " | ") with [" "; "|"; " "]%char.
  destruct s as [|c [|x s]]; cbn [starts_with]; intros H.
  - reflexivity.
  - now destruct (" " =? c)%char.
  - destruct (" " =? c)%char; [|reflexivity].
    destruct (Ascii.eqb_spec "|" x) as [<-|]; [contradiction | reflexivity].
Qed.

Lemma find_bar (a b : chars) :
  ~ In "|"%char a ->
  find_sep (s2c " | ") (a ++ s2c " | " ++ b) = Some (a, b).
Proof.
  induction a as [|c a IH]; intros H.
  - reflexivity.
  - assert (Ha : ~ In "|"%char a) by (intros Hi; apply H; now right).
    change ((c :: a) ++ s2c " | " ++ b) with (c :: (a ++ s2c " | " ++ b)).
    cbn [find_sep]. rewrite (IH Ha), starts_with_bar_none; [reflexivity|].
    destruct a as [|c' a]; [discriminate|].
    intros ->. apply Ha. now left.
Qed.

Lemma find_bar_none (a : chars) :
  ~ In "|"%char a -> find_sep (s2c " | ") a = None.
Proof.
  induction a as [|c a IH]; intros H; [reflexivity|].
  assert (Ha : ~ In "|"%char a) by (intros Hi; apply H; now right).
  cbn [find_sep]. rewrite (IH Ha), starts_with_bar_none; [reflexivity|].
  destruct a as [|c' a]; [trivial|].
  intros ->. apply Ha. now left.
Qed.



(** A line of four parts without [|] splits into these parts. *)
Lemma split_line (a b c d : chars) :
  ~ In "|"%char a -> ~ In "|"%char b -> ~ In "|"%char c ->
  ~ In "|"%char d ->
  split (s2c " | ")
    (a ++ s2c " | " ++ b ++ s2c " | " ++ c ++ s2c " | " ++ d)
  = [a; b; c; d].
Proof.
  intros Ha Hb Hc Hd.
  assert (Hsep : s2c " | " <> []) by discriminate.
  rewrite (split_eq _ _ Hsep), (find_bar a _ Ha).
  rewrite (split_eq _ _ Hsep), (find_bar b _ Hb).
  rewrite (split_eq _ _ Hsep), (find_bar c _ Hc).
  now rewrite (split_eq _ _ Hsep), (find_bar_none d Hd).
Qed.

(** *** The separator inside the fields *)















(** *** [int] *)


Lemma digit_not_int_space (c : ascii) :
  is_digit c = true -> is_int_space c = false.
Proof.
  destruct c as [[] [] [] [] [] [] [] []]; try discriminate; reflexivity.
Qed.

Lemma int_lstrip_digits (s : chars) : all_digits s -> int_lstrip s = s.
Proof.
  destruct 1 as [|c s Hc _]; simpl; [reflexivity|].
  now rewrite (digit_not_int_space c Hc).
Qed.

Lemma int_strip_digits (s : chars) : all_digits s -> int_strip s = s.
Proof.
  intros Hd. unfold int_strip. rewrite (int_lstrip_digits s Hd).
  rewrite int_lstrip_digits; [apply rev_involutive|].
  unfold all_digits. apply Forall_rev. exact Hd.
Qed.

Lemma digit_count_all (s : chars) :
  all_digits s -> digit_count s = Z.of_nat (List.length s).
Proof.
  intros Hd. unfold digit_count. f_equal. f_equal.
  induction Hd as [|c s Hc _ IH]; simpl; [reflexivity|].
  now rewrite Hc, IH.
Qed.







(** *** The date check *)





(** *** The matcher *)

Section RepetitionFacts.
Context {R : Type}.
Variable cls : ascii -> bool.
Variable k : chars -> option R.

(** A greedy repetition takes the whole run when the rest then matches. *)
Lemma star_skip (w t : chars) (r : R) :
  Forall (fun c => cls c = true) w ->
  head_not cls t ->
  k t = Some r ->
  star cls k (w ++ t) = Some r.
Proof.
  intros Hw Ht Hk. induction Hw as [|c w Hc _ IH]; simpl.
  - destruct t as [|c t]; simpl in *; [exact Hk | now rewrite Ht].
  - now rewrite Hc, IH.
Qed.

(** It fails when the rest matches after none of its possible runs. *)
Lemma star_none (s : chars) :
  (forall w t,
      s = w ++ t -> Forall (fun c => cls c = true) w -> k t = None) ->
  star cls k s = None.
Proof.
  induction s as [|c s IH]; intros H; simpl.
  - now apply (H [] []).
  - assert (H0 : k (c :: s) = None) by now apply (H [] (c :: s)).
    destruct (cls c) eqn:Hc; [|exact H0].
    rewrite IH; [exact H0|].
    intros w t -> Hw. apply (H (c :: w) t); [reflexivity|].
    now constructor.
Qed.

(** A lazy repetition stops at the first length after which the rest
    matches. *)
Lemma lazy_skip (a b : chars) (r : R) :
  Forall (fun c => cls c = true) a ->
  (forall a1 a2, a = a1 ++ a2 -> a2 <> [] -> k (a2 ++ b) = None) ->
  k b = Some r ->
  lazy_star cls k (a ++ b) = Some r.
Proof.
  intros Ha. induction Ha as [|c a Hc _ IH]; intros Hf Hk.
  - destruct b; simpl; now rewrite Hk.
  - change ((c :: a) ++ b) with (c :: (a ++ b)). cbn [lazy_star].
    assert (H0 : k (c :: a ++ b) = None)
      by (apply (Hf [] (c :: a)); [reflexivity | discriminate]).
    rewrite H0, Hc. apply IH; [|exact Hk].
    intros a1 a2 -> Hne. now apply (Hf (c :: a1) a2).
Qed.
End RepetitionFacts.

Lemma firstn_captured (a b : chars) :
  firstn (List.length (a ++ b) - List.length b) (a ++ b) = a.
Proof.
  rewrite length_app.
  replace (List.length a + List.length b - List.length b)%nat
    with (List.length a + 0)%nat by lia.
  rewrite firstn_app_2. simpl. apply app_nil_r.
Qed.

Section ExecFacts.
Variable whole : chars.

Lemma exec_cat (r1 r2 : regex) (s : chars) (g : captures)
  (k : chars -> captures -> option captures) :
  exec whole (Cat r1 r2) s g k
  = exec whole r1 s g (fun s' g' => exec whole r2 s' g' k).
Proof. reflexivity. Qed.

Lemma exec_bol (g : captures) (k : chars -> captures -> option captures) :
  exec whole Bol whole g k = k whole g.
Proof. simpl. now rewrite Nat.eqb_refl. Qed.

Lemma exec_chr (c : ascii) (s : chars) (g : captures)
  (k : chars -> captures -> option captures) :
  exec whole (Chr c) (c :: s) g k = k s g.
Proof. simpl. now rewrite Ascii.eqb_refl. Qed.

Lemma exec_eol_nil (g : captures)
  (k : chars -> captures -> option captures) :
  exec whole Eol [] g k = k [] g.
Proof. reflexivity. Qed.

Lemma exec_star_skip (cls : ascii -> bool) (w t : chars) (g r : captures)
  (k : chars -> captures -> option captures) :
  Forall (fun c => cls c = true) w ->
  head_not cls t ->
  k t g = Some r ->
  exec whole (Star cls) (w ++ t) g k = Some r.
Proof. intros Hw Ht Hk. simpl. now apply star_skip. Qed.

Lemma exec_group_plus (i : nat) (cls : ascii -> bool) (w t : chars)
  (g r : captures) (k : chars -> captures -> option captures) :
  w <> [] ->
  Forall (fun c => cls c = true) w ->
  head_not cls t ->
  k t (set_group i w g) = Some r ->
  exec whole (Group i (Plus cls)) (w ++ t) g k = Some r.
Proof.
  intros Hne Hw Ht Hk. destruct w as [|c w]; [contradiction|].
  inversion Hw as [|? ? Hc Hw']; subst.
  cbn [exec app]. rewrite Hc.
  apply star_skip; [exact Hw' | exact Ht |].
  change (c :: w ++ t) with ((c :: w) ++ t).
  now rewrite (firstn_captured (c :: w) t).
Qed.

Lemma exec_group_lazy (i : nat) (cls : ascii -> bool) (a b : chars)
  (g r : captures) (k : chars -> captures -> option captures) :
  Forall (fun c => cls c = true) a ->
  (forall a1 a2 g',
      a = a1 ++ a2 -> a2 <> [] -> k (a2 ++ b) g' = None) ->
  k b (set_group i a g) = Some r ->
  exec whole (Group i (LazyStar cls)) (a ++ b) g k = Some r.
Proof.
  intros Ha Hf Hk. cbn [exec].
  apply lazy_skip; [exact Ha | |].
  - intros a1 a2 E Hne. now apply (Hf a1 a2).
  - now rewrite firstn_captured.
Qed.

Lemma exec_group_lazy_all (i : nat) (cls : ascii -> bool) (a : chars)
  (g r : captures) (k : chars -> captures -> option captures) :
  Forall (fun c => cls c = true) a ->
  (forall a1 a2 g', a = a1 ++ a2 -> a2 <> [] -> k a2 g' = None) ->
  k [] (set_group i a g) = Some r ->
  exec whole (Group i (LazyStar cls)) a g k = Some r.
Proof.
  intros Ha Hf Hk.
  pose proof (exec_group_lazy i cls a [] g r k Ha) as H.
  rewrite app_nil_r in H. apply H; [|exact Hk].
  intros a1 a2 g' E Hne. rewrite app_nil_r. now apply (Hf a1 a2).
Qed.

(** After optional whitespace the string must end. *)
Lemma exec_space_eol_none (s : chars) (g : captures)
  (k : chars -> captures -> option captures) :
  (forall w t,
      s = w ++ t -> Forall (fun x => is_space x = true) w ->
      exists x t', t = x :: t' /\ (t' = [] -> is_space x = false)) ->
  exec whole (Cat (Star is_space) Eol) s g k = None.
Proof.
  intros H. cbn [exec]. apply star_none. intros w t E Hw.
  destruct (H w t E Hw) as (x & t' & -> & Hx).
  destruct t' as [|y t'].
  - specialize (Hx eq_refl).
    destruct x as [[] [] [] [] [] [] [] []]; try reflexivity; discriminate.
  - destruct x as [[] [] [] [] [] [] [] []]; reflexivity.
Qed.
End ExecFacts.

Lemma suffix_last (a1 a2 i : chars) (z : ascii) :
  a1 ++ a2 = i ++ [z] -> a2 <> [] -> exists i', a2 = i' ++ [z].
Proof.
  intros E Hne. destruct (exists_last Hne) as (i' & z' & ->).
  rewrite app_assoc in E. apply app_inj_tail in E. destruct E as [_ ->].
  now exists i'.
Qed.

(** A run of whitespace at the start of [a ++ rest] ends inside [a] when
    [a] ends with a character that is not whitespace. *)
Lemma space_run_inside (a rest w t i : chars) (z : ascii) :
  a = i ++ [z] -> is_space z = false ->
  a ++ rest = w ++ t -> Forall (fun x => is_space x = true) w ->
  exists l, l <> [] /\ a = w ++ l /\ t = l ++ rest.
Proof.
  intros Ea Hz E Hw.
  assert (Hnw : forall l', w <> a ++ l').
  { intros l' ->. rewrite Ea in Hw. rewrite Forall_forall in Hw.
    assert (In z ((i ++ [z]) ++ l')) as Hin
        by (apply in_or_app; left; apply in_or_app; right; now left).
    apply Hw in Hin. congruence. }
  apply app_eq_app in E. destruct E as (l & [[E1 E2] | [E1 E2]]).
  - exists l. repeat split; [|exact E1 | exact E2].
    intros ->. rewrite app_nil_r in E1. apply (Hnw []).
    now rewrite app_nil_r.
  - now apply Hnw in E1.
Qed.

Lemma no_newline_dot (s : chars) :
  ~ In "010"%char s -> Forall (fun c => dot c = true) s.
Proof.
  intros H. apply Forall_forall. intros c Hc. unfold dot.
  destruct (Ascii.eqb_spec c "010") as [->|]; [contradiction | reflexivity].
Qed.

Lemma class_run_inside (cls : ascii -> bool) (x : ascii)
  (rest : chars) (w : chars) :
  cls x = false ->
  Forall (fun c => cls c = true) w ->
  forall a t,
    a ++ x :: rest = w ++ t ->
    exists l, a = w ++ l /\ t = l ++ x :: rest.
Proof.
  intros Hx Hw. induction Hw as [|c w Hc _ IH]; intros a t E.
  - exists a. split; [reflexivity | now symmetry].
  - destruct a as [|c' a].
    + injection E as -> _. congruence.
    + injection E as -> E. destruct (IH a t E) as (l & -> & ->).
      now exists l.
Qed.

Lemma lacks_not_char (x : ascii) (s : chars) :
  ~ In x s -> Forall (fun c => not_char x c = true) s.
Proof.
  intros H. apply Forall_forall. intros c Hc. unfold not_char.
  destruct (Ascii.eqb_spec c x) as [->|]; [contradiction | reflexivity].
Qed.

(** The score part of the pattern fails on a text that begins with [:], or
    whose first [:] is directly followed by [)]. *)
Lemma exec_score_none (whole u v : chars) (r : regex) (g : captures)
  (k : chars -> captures -> option captures) :
  ~ In ":"%char u ->
  (u = [] \/ exists v', v = ")"%char :: v') ->
  exec whole
    (Cat (Group 2 (Plus (not_char ":")))
       (Cat (Chr ":") (Cat (Group 3 (Plus (not_char ")"))) r)))
    (u ++ ":"%char :: v) g k
  = None.
Proof.
  intros Hu Hv. rewrite exec_cat. cbn [exec].
  destruct u as [|d u]; [reflexivity|].
  cbn [app].
  assert (Hd : not_char ":" d = true).
  { unfold not_char. destruct (Ascii.eqb_spec d ":") as [->|];
      [exfalso; apply Hu; now left | reflexivity]. }
  rewrite Hd. apply star_none. intros w t E Hw.
  assert (Hu' : ~ In ":"%char u) by (intros H; apply Hu; now right).
  destruct (class_run_inside (not_char ":") ":" v w eq_refl Hw u t E)
    as (l & El & ->).
  destruct l as [|x l]; cbn [app exec].
  - destruct Hv as [Hv|(v' & ->)]; [discriminate|].
    rewrite Ascii.eqb_refl. reflexivity.
  - destruct (Ascii.eqb_spec ":" x) as [<-|]; [|reflexivity].
    exfalso. apply Hu'. rewrite El. apply in_or_app. right. now left.
Qed.

Lemma exec_star_eq (whole : chars) (cls : ascii -> bool) (s : chars)
  (g : captures) (k : chars -> captures -> option captures) :
  exec whole (Star cls) s g k = star cls (fun s' => k s' g) s.
Proof. reflexivity. Qed.

Lemma exec_chr_eq (whole : chars) (c d : ascii) (s : chars) (g : captures)
  (k : chars -> captures -> option captures) :
  exec whole (Chr c) (d :: s) g k = if (c =? d)%char then k s g else None.
Proof. reflexivity. Qed.

Lemma lacks_no_score_start (s : chars) : ~ In "("%char s -> no_score_start s.
Proof.
  intros H a1 a2 ->. exfalso. apply H. apply in_or_app. right. now left.
Qed.

(** The pattern on a block: the names are plain, no parenthesis of the
    first can start the score, and the score texts are not empty and hold
    no delimiter of their own. *)
Lemma re_match_block (team1 s1 s2 team2 : chars) :
  plain_name team1 -> no_score_start team1 ->
  s1 <> [] -> ~ In ":"%char s1 ->
  s2 <> [] -> ~ In ")"%char s2 ->
  plain_name team2 ->
  re_match pattern (block team1 s1 s2 team2)
  = Some (four_groups team1 s1 s2 team2).
Proof.
  intros (N1 & T1 & L1) P1 Ns1 D1 Ns2 D2 (N2 & T2 & L2).
  destruct (trimmed_ends team1 N1 T1)
    as ((c1 & r1 & E1 & Hc1) & (i1 & z1 & F1 & Hz1)).
  destruct (trimmed_ends team2 N2 T2)
    as ((c2 & r2 & E2 & Hc2) & (i2 & z2 & F2 & Hz2)).
  assert (H1 : head_not is_space (block team1 s1 s2 team2))
    by (unfold block; rewrite E1; exact Hc1).
  assert (H2 : head_not is_space team2) by (rewrite E2; exact Hc2).
  unfold re_match, pattern. cbn [cat_all].
  rewrite exec_cat, exec_bol, exec_cat.
  apply (exec_star_skip _ is_space [] _ _ _ _ (Forall_nil _) H1).
  rewrite exec_cat. unfold block.
  apply exec_group_lazy; [now apply no_newline_dot | |].
  - intros a1 a2 g' Ea Hne. rewrite exec_cat, exec_star_eq.
    apply star_none. intros w t E Hw.
    assert (Hl : exists i', a2 = i' ++ [z1])
      by (apply (suffix_last a1 a2 i1); [now rewrite <- Ea | exact Hne]).
    destruct Hl as (i' & Ei').
    destruct (space_run_inside _ _ _ _ _ _ Ei' Hz1 E Hw) as (l & Hl & El & ->).
    destruct l as [|x l]; [contradiction|].
    rewrite exec_cat. cbn [app]. rewrite exec_chr_eq.
    destruct (Ascii.eqb_spec "(" x) as [<-|]; [|reflexivity].
    destruct (P1 (a1 ++ w) l) as (u & v & -> & Hu & Hv).
    { rewrite Ea, El. now rewrite <- app_assoc. }
    rewrite <- app_assoc. cbn [app].
    apply exec_score_none; [exact Hu|].
    destruct Hv as [Hv|(v' & ->)]; [now left | right].
    cbn [app]. eauto.
  - rewrite exec_cat.
    apply (exec_star_skip _ is_space [" "%char]);
      [repeat constructor | reflexivity |].
    rewrite exec_cat, exec_chr, exec_cat.
    apply exec_group_plus;
      [exact Ns1 | now apply lacks_not_char | reflexivity |].
    rewrite exec_cat. cbn [app]. rewrite exec_chr, exec_cat.
    apply exec_group_plus;
      [exact Ns2 | now apply lacks_not_char | reflexivity |].
    rewrite exec_cat. cbn [app]. rewrite exec_chr, exec_cat.
    apply (exec_star_skip _ is_space [" "%char]);
      [repeat constructor | exact H2 |].
    rewrite exec_cat.
    apply exec_group_lazy_all; [now apply no_newline_dot | |].
    + intros a1 a2 g' Ea Hne. apply exec_space_eol_none.
      intros w t E Hw. rewrite <- (app_nil_r a2) in E.
      assert (Hl : exists i', a2 = i' ++ [z2])
        by (apply (suffix_last a1 a2 i2); [now rewrite <- Ea | exact Hne]).
      destruct Hl as (i' & Ei').
      destruct (space_run_inside _ _ _ _ _ _ Ei' Hz2 E Hw)
        as (l & Hl & El & ->).
      rewrite app_nil_r. destruct l as [|x l]; [contradiction|].
      exists x, l. split; [reflexivity|]. intros ->.
      rewrite Ei' in El.
      assert (E' : i' ++ [z2] = w ++ [x]) by exact El.
      apply app_inj_tail in E'. destruct E' as [_ <-]. exact Hz2.
    + rewrite exec_cat.
      apply (exec_star_skip _ is_space [] []);
        [constructor | exact I |].
      rewrite exec_eol_nil. reflexivity.
Qed.

(** *** Lines in the documented format *)



Lemma strip_block (team1 s1 s2 team2 : chars) :
  plain_name team1 -> plain_name team2 ->
  strip (block team1 s1 s2 team2) = block team1 s1 s2 team2.
Proof.
  intros (N1 & T1 & _) (N2 & T2 & _).
  destruct (trimmed_ends team1 N1 T1) as ((c1 & r1 & E1 & Hc1) & _).
  destruct (trimmed_ends team2 N2 T2) as (_ & (i2 & z2 & F2 & Hz2)).
  unfold block. rewrite E1. cbn [app].
  apply (strip_id c1 z2 _
           (c1 :: r1 ++ " "%char :: "("%char :: s1 ++ ":"%char :: s2
              ++ ")"%char :: " "%char :: i2) Hc1 Hz2).
  rewrite F2. cbn [app]. f_equal. rewrite <- !app_assoc. cbn [app].
  repeat (f_equal; try (rewrite <- !app_assoc; cbn [app])).
Qed.





(** C5. The date check accepts dates that are not in [YYYY-MM-DD] form:
    ["2024-1-5"] is not, and its line parses; the nonexistent date
    2024-02-30 is rejected with the date format error. *)
Theorem unpadded_date_accepted :
  iso_date (s2c "2024-1-5") = false
  /\ parse_match_data "2024-1-5 | A (1:1) B | X | 10"
     = Parsed (mkMatch "2024-1-5" "A" 1 "B" 1 "X" 10)
  /\ parse_match_data "2024-02-30 | A (1:1) B | X | 10"
     = ValueError "Invalid date format: expected YYYY-MM-DD".
Proof. repeat split. Qed.

(** What does hold of the date check: a line of four parts whose date
    segment fails it is never parsed. *)
Lemma failed_date_check_rejected (line date_str b c d : chars) :
  split (s2c " | ") line = [date_str; b; c; d] ->
  check_date date_str <> DateOk ->
  parse_chars line
  = ValueError "Invalid date format: expected YYYY-MM-DD"
  \/ parse_chars line = OverflowError.
Proof.
  intros Hs Hd. unfold parse_chars. rewrite Hs.
  destruct (check_date date_str); [contradiction | now left | now right].
Qed.

(** A year beyond the range of a C [int] is not reported as a date format
    error: the [OverflowError] of [datetime.date] is not caught. *)
Example huge_year_overflows :
  parse_match_data "99999999999-01-01 | A (1:1) B | X | 10" = OverflowError.
Proof. reflexivity. Qed.

(** [int] at the edges of what it accepts: it does not skip the separators
    28 to 31 that [str.strip] removes, and it skips the blank 160. *)
Example int_edges :
  strip ["028"; "5"]%char = ["5"%char]
  /\ py_int ["028"; "5"]%char = None
  /\ py_int ["160"; "5"]%char = Some 5.
Proof. repeat split. Qed.

(** [int] raises on a string of more digits than the limit. *)
Lemma py_int_over_limit (s : chars) :
  all_digits s -> max_str_digits < Z.of_nat (List.length s) ->
  py_int s = None.
Proof.
  intros Hd Hl. unfold py_int. rewrite (int_strip_digits s Hd).
  destruct s as [|c r]; [reflexivity|].
  inversion Hd as [|? ? Hc Hr]; subst.
  rewrite (digit_neq c "+" Hc eq_refl), (digit_neq c "-" Hc eq_refl).
  unfold int_unsigned. rewrite Hc, (digit_count_all _ Hd).
  now rewrite (proj2 (Z.leb_gt _ _) Hl).
Qed.

(** * Further properties of the five stages *)

(** ** Aggregator: teams, totals and bounds *)

Lemma keys_add_key (k : string) (d : dict (list entry)) :
  keys (add_key k d) = if contains k d then keys d else keys d ++ [k].
Proof.
  unfold add_key, keys. destruct (contains k d); [reflexivity|].
  now rewrite map_app.
Qed.

Lemma keys_append_to (k : string) (e : entry) (d : dict (list entry)) :
  keys (append_to k e d) = keys d.
Proof.
  induction d as [|[k' v] d IH]; simpl; [reflexivity|].
  destruct (k' =? k)%string; simpl; [reflexivity | now rewrite IH].
Qed.

Lemma NoDup_add_key (k : string) (d : dict (list entry)) :
  NoDup (keys d) -> NoDup (keys (add_key k d)).
Proof.
  intros H. rewrite keys_add_key. destruct (contains k d) eqn:E; [exact H|].
  apply NoDup_app; [exact H | repeat constructor; intros [] |].
  intros x Hx [<-|[]]. apply contains_keys in Hx. congruence.
Qed.

Lemma NoDup_group_fold (l : list MatchRecord) (d : dict (list entry)) :
  NoDup (keys d) -> NoDup (keys (fold_left group_step l d)).
Proof.
  revert d; induction l as [|m l IH]; intros d H; simpl; [exact H|].
  apply IH. unfold group_step. rewrite !keys_append_to.
  now apply NoDup_add_key, NoDup_add_key.
Qed.

Lemma keys_calculate (matches_list : list MatchRecord) :
  keys (calculate_advanced_team_stats matches_list)
  = keys (group_matches (sort_matches matches_list)).
Proof.
  unfold calculate_advanced_team_stats, keys.
  destruct matches_list as [|m ms]; [reflexivity|]. now rewrite map_map.
Qed.


Lemma NoDup_keys_calculate (matches_list : list MatchRecord) :
  NoDup (keys (calculate_advanced_team_stats matches_list)).
Proof. rewrite keys_calculate. apply NoDup_group_fold. constructor. Qed.






Lemma count_step_results (c : counters) (e : entry) :
  c_points (count_step c e) = c_points c + entry_points e
  /\ c_wins (count_step c e) = c_wins c + entry_win e
  /\ c_draws (count_step c e) = c_draws c + entry_draw e
  /\ c_losses (count_step c e) = c_losses c + entry_loss e.
Proof.
  unfold count_step, entry_points, entry_win, entry_draw, entry_loss,
    entry_result.
  destruct (team_score e >? opponent_score e);
    [|destruct (team_score e =? opponent_score e)]; fields; cbn [fst snd];
    lia.
Qed.

Lemma count_fold_results (l : list entry) (c : counters) :
  c_points (fold_left count_step l c) = c_points c + sum_over entry_points l
  /\ c_wins (fold_left count_step l c) = c_wins c + sum_over entry_win l
  /\ c_draws (fold_left count_step l c) = c_draws c + sum_over entry_draw l
  /\ c_losses (fold_left count_step l c) = c_losses c + sum_over entry_loss l.
Proof.
  revert c; induction l as [|e l IH]; intros c; simpl; [lia|].
  destruct (IH (count_step c e)) as (-> & -> & -> & ->).
  destruct (count_step_results c e) as (-> & -> & -> & ->). lia.
Qed.






Lemma sum_over_nonneg {A : Type} (f : A -> Z) (l : list A) :
  (forall x, 0 <= f x) -> 0 <= sum_over f l.
Proof.
  intros H. induction l as [|x l IH]; cbn [sum_over fold_right]; [lia|].
  fold (sum_over f l). specialize (H x). lia.
Qed.

Lemma entry_result_nonneg (e : entry) :
  0 <= entry_win e /\ 0 <= entry_draw e /\ 0 <= entry_loss e.
Proof.
  unfold entry_win, entry_draw, entry_loss, entry_result.
  destruct (team_score e >? opponent_score e);
    [|destruct (team_score e =? opponent_score e)]; cbn [fst snd]; lia.
Qed.

Lemma streak_loop_bounds (r : list entry) (acc : Z) :
  acc <= streak_loop acc r <= acc + sum_over entry_win r.
Proof.
  revert acc; induction r as [|e r IH]; intros acc;
    cbn [streak_loop sum_over fold_right]; [lia|].
  fold (sum_over entry_win r).
  pose proof (sum_over_nonneg entry_win r
                (fun x => proj1 (entry_result_nonneg x))) as Hr.
  unfold entry_win at 1, entry_result.
  destruct (team_score e >? opponent_score e).
  - specialize (IH (acc + 1)). cbn [fst snd]. lia.
  - destruct (team_score e =? opponent_score e); cbn [fst snd]; lia.
Qed.

Lemma count_fold_split_nonneg (l : list entry) (c : counters) :
  0 <= c_home_points c -> 0 <= c_away_points c ->
  0 <= c_home_points (fold_left count_step l c)
  /\ 0 <= c_away_points (fold_left count_step l c).
Proof.
  revert c; induction l as [|e l IH]; intros c Hh Ha; simpl; [lia|].
  apply IH; unfold count_step;
    destruct (team_score e >? opponent_score e);
    [|destruct (team_score e =? opponent_score e)| |
      destruct (team_score e =? opponent_score e)];
    destruct (is_home e); fields; lia.
Qed.

(** The stats of a team of the output are those of a list of at least one
    entry. *)
Lemma in_calculate_nonempty (matches_list : list MatchRecord) (t : string)
  (s : TeamStats) :
  In (t, s) (calculate_advanced_team_stats matches_list) ->
  exists es, es <> [] /\ s = team_stats_of es.
Proof.
  intros H.
  apply (dict_get_in _ _ _ (NoDup_keys_calculate matches_list)) in H.
  rewrite dict_get_calculate in H.
  destruct (entries_of t (sort_matches matches_list)) as [|e es] eqn:E;
    [discriminate|].
  injection H as <-. exists (sort_entries (e :: es)). split; [|reflexivity].
  intros Hn. apply (f_equal (@List.length entry)) in Hn.
  unfold sort_entries in Hn. rewrite sort_by_length in Hn. discriminate.
Qed.

(** X4. Bounds on the stats of every team of the output: it has played at
    least one match; wins, draws and losses are not negative; the win streak
    lies between 0 and the number of wins; the points lie between 0 and 3
    per match played; neither points bucket is negative. *)
Theorem stats_bounds (matches_list : list MatchRecord) (t : string)
  (s : TeamStats) :
  In (t, s) (calculate_advanced_team_stats matches_list) ->
  1 <= matches_played s
  /\ 0 <= wins s /\ 0 <= draws s /\ 0 <= losses s
  /\ 0 <= win_streak s <= wins s
  /\ 0 <= points s <= 3 * matches_played s
  /\ 0 <= home_points s /\ 0 <= away_points s.
Proof.
  intros H. apply in_calculate_nonempty in H. destruct H as (es & Hne & ->).
  destruct (team_stats_of_ok es) as (Hp & Hn & _).
  destruct (count_fold_results es counters0) as (_ & Hw & Hd & Hl).
  destruct (count_fold_split_nonneg es counters0) as [Hh Ha];
    [simpl; lia | simpl; lia |].
  pose proof (sum_over_nonneg entry_win es
                (fun x => proj1 (entry_result_nonneg x))) as W.
  pose proof (sum_over_nonneg entry_draw es
                (fun x => proj1 (proj2 (entry_result_nonneg x)))) as D.
  pose proof (sum_over_nonneg entry_loss es
                (fun x => proj2 (proj2 (entry_result_nonneg x)))) as L.
  pose proof (streak_loop_bounds (rev es) 0) as S.
  rewrite (sum_over_perm entry_win (rev es) es) in S
    by (apply Permutation_sym, Permutation_rev).
  revert Hp Hn. unfold team_stats_of; fields. rewrite Hw, Hd, Hl.
  cbn [counters0 c_wins c_draws c_losses].
  assert (1 <= Z.of_nat (List.length es))
    by (destruct es; [contradiction | simpl List.length; lia]).
  intros Hp Hn. repeat split; lia.
Qed.

Lemma stats_bounds_witness :
  let s := mkStats 4 2 1 1 0 3 1 2 4 0 0 220 in
  In ("Alpha"%string, s) (calculate_advanced_team_stats streak_example)
  /\ (1 <= matches_played s
      /\ 0 <= wins s /\ 0 <= draws s /\ 0 <= losses s
      /\ 0 <= win_streak s <= wins s
      /\ 0 <= points s <= 3 * matches_played s
      /\ 0 <= home_points s /\ 0 <= away_points s).
Proof.
  split; [vm_compute; left; reflexivity|].
  apply (stats_bounds streak_example "Alpha"%string).
  vm_compute. left. reflexivity.
Defined.

Lemma count_step_comm (c : counters) (a b : entry) :
  count_step (count_step c a) b = count_step (count_step c b) a.
Proof.
  unfold count_step.
  destruct (team_score a >? opponent_score a);
    [|destruct (team_score a =? opponent_score a)];
    (destruct (team_score b >? opponent_score b);
     [|destruct (team_score b =? opponent_score b)]);
    destruct (is_home a), (is_home b); fields; f_equal; lia.
Qed.

Lemma count_fold_perm (l1 l2 : list entry) :
  Permutation l1 l2 ->
  forall c, fold_left count_step l1 c = fold_left count_step l2 c.
Proof.
  induction 1 as [|x l1 l2 _ IH|x y l|l1 l2 l3 _ IH1 _ IH2]; intros c; simpl.
  - reflexivity.
  - apply IH.
  - now rewrite count_step_comm.
  - now rewrite IH1, IH2.
Qed.

Lemma totals_perm (l1 l2 : list entry) :
  Permutation l1 l2 -> totals (team_stats_of l1) = totals (team_stats_of l2).
Proof.
  intros P. unfold totals, team_stats_of; fields.
  now rewrite (count_fold_perm l1 l2 P), (Permutation_length P).
Qed.

(** X5. Apart from the win streak, the stats of every team are the same for
    every order of the input list. *)
Theorem totals_order_independent (ms ms' : list MatchRecord) (t : string) :
  Permutation ms ms' ->
  option_map totals (dict_get t (calculate_advanced_team_stats ms))
  = option_map totals (dict_get t (calculate_advanced_team_stats ms')).
Proof.
  intros P. rewrite !dict_get_calculate.
  assert (Q : Permutation (entries_of t (sort_matches ms))
                (entries_of t (sort_matches ms'))).
  { unfold entries_of. apply Permutation_flat_map.
    eapply perm_trans; [apply sort_by_perm|].
    eapply perm_trans; [exact P|]. apply Permutation_sym, sort_by_perm. }
  destruct (entries_of t (sort_matches ms)) as [|e es].
  - apply Permutation_nil in Q. now rewrite Q.
  - destruct (entries_of t (sort_matches ms')) as [|e' es'].
    + apply Permutation_sym, Permutation_nil in Q. discriminate.
    + cbn [some_nonempty option_map]. f_equal. apply totals_perm.
      eapply perm_trans; [apply sort_by_perm|].
      eapply perm_trans; [exact Q|]. apply Permutation_sym, sort_by_perm.
Qed.

Lemma totals_order_independent_witness :
  option_map totals
    (dict_get "Alpha" (calculate_advanced_team_stats streak_example))
  = option_map totals
      (dict_get "Alpha" (calculate_advanced_team_stats (rev streak_example))).
Proof.
  apply (totals_order_independent streak_example (rev streak_example)).
  simpl. apply perm_swap.
Defined.

(** ** Ranker: order, ranks and tie groups *)

Section SortedFacts.
Context {A K : Type}.
Variable key : A -> K.
Variable lt : K -> K -> bool.
Hypothesis lt_asym : forall a b, lt a b = true -> lt b a = false.

Lemma insert_by_hd (x : A) (l : list A) (y : A) :
  in_order key lt y x -> HdRel (in_order key lt) y l ->
  HdRel (in_order key lt) y (insert_by key lt x l).
Proof.
  intros Hyx Hl. destruct l as [|z l]; simpl; [now constructor|].
  destruct (lt (key z) (key x)); constructor; [now inversion Hl | exact Hyx].
Qed.

Lemma insert_by_sorted (x : A) (l : list A) :
  Sorted (in_order key lt) l -> Sorted (in_order key lt) (insert_by key lt x l).
Proof.
  induction 1 as [|y l Hs IH Hh]; simpl; [repeat constructor|].
  destruct (lt (key y) (key x)) eqn:E.
  - constructor; [exact IH|].
    apply insert_by_hd; [|exact Hh]. unfold in_order. now apply lt_asym.
  - constructor; [now constructor | constructor; exact E].
Qed.

(** The result of the sort is in order. *)
Lemma sort_by_sorted (l : list A) : Sorted (in_order key lt) (sort_by key lt l).
Proof.
  induction l as [|x l IH]; simpl; [constructor|].
  now apply insert_by_sorted.
Qed.

(** A list that is in order is returned as it is. *)
Lemma sort_by_fixed (l : list A) :
  Sorted (in_order key lt) l -> sort_by key lt l = l.
Proof.
  induction 1 as [|x l Hs IH Hh]; simpl; [reflexivity|].
  rewrite IH. destruct Hh as [|y l Hxy]; simpl; [reflexivity|].
  unfold in_order in Hxy. now rewrite Hxy.
Qed.
End SortedFacts.

Lemma sort_by_ext {A K : Type} (key key' : A -> K) (lt : K -> K -> bool)
  (l : list A) :
  (forall x, key x = key' x) -> sort_by key lt l = sort_by key' lt l.
Proof.
  intros E. induction l as [|x l IH]; simpl; [reflexivity|].
  rewrite IH. generalize (sort_by key' lt l). intros s.
  induction s as [|y s IHs]; simpl; [reflexivity|].
  now rewrite !E, IHs.
Qed.

(** Python's order on tuples of integers is a strict total order. *)
Lemma tuple_lt_asym (a b : list Z) : tuple_lt a b = true -> tuple_lt b a = false.
Proof.
  revert b; induction a as [|x a IH]; intros [|y b]; simpl; try congruence.
  rewrite (Z.eqb_sym y x). destruct (Z.eqb_spec x y); [apply IH|].
  intros H. apply Z.ltb_lt in H. apply Z.ltb_ge. lia.
Qed.

Lemma tuple_le_trans (a b c : list Z) :
  tuple_lt b a = false -> tuple_lt c b = false -> tuple_lt c a = false.
Proof.
  revert b c; induction a as [|x a IH]; intros [|y b] [|z c]; simpl;
    try congruence.
  destruct (Z.eqb_spec y x), (Z.eqb_spec z y), (Z.eqb_spec z x);
    try lia; subst; intros H1 H2;
    first [ exact (IH _ _ H1 H2) | assumption
          | rewrite ?Z.ltb_ge in *; lia ].
Qed.

Lemma tuple_le_antisym (a b : list Z) :
  tuple_lt a b = false -> tuple_lt b a = false -> a = b.
Proof.
  revert b; induction a as [|x a IH]; intros [|y b]; simpl; try congruence.
  rewrite (Z.eqb_sym y x). destruct (Z.eqb_spec x y).
  - intros H1 H2. subst. f_equal. now apply IH.
  - intros H1 H2. apply Z.ltb_ge in H1, H2. lia.
Qed.

Lemma sort_teams_sorted (o : list string) (l : list team_data) :
  StronglySorted (in_order (get_sort_key o) tuple_lt) (sort_teams o l).
Proof.
  apply Sorted_StronglySorted.
  - intros a b c Hab Hbc. unfold in_order in *.
    exact (tuple_le_trans _ _ _ Hab Hbc).
  - apply sort_by_sorted. apply tuple_lt_asym.
Qed.

Lemma rank_loop_ranks (o : list string) (l : list team_data) :
  forall (i : Z) (prev : team_data) (cr : Z),
    cr <= i ->
    let ranks := map row_rank (rank_loop o i prev cr l) in
    HdRel Z.le cr ranks
    /\ Sorted Z.le ranks
    /\ forall j r, nth_error ranks j = Some r -> cr <= r <= i + Z.of_nat j + 1.
Proof.
  induction l as [|t l IH]; intros i prev cr Hcr; cbn zeta.
  - split; [constructor | split; [constructor|]].
    intros [|j] r H; discriminate.
  - cbn [rank_loop map].
    set (cr' := if is_tie o t prev then cr else i + 1).
    assert (Hc : cr <= cr' <= i + 1)
      by (subst cr'; destruct (is_tie o t prev); lia).
    destruct (IH (i + 1) t cr' ltac:(lia)) as (Hh & Hs & Hn).
    split; [constructor; unfold row_rank; cbn [fst]; lia
           | split; [constructor; [exact Hs | exact Hh]|]].
    intros [|j] r H; cbn [nth_error] in H;
      [unfold row_rank in H; cbn [fst] in H; injection H as <-; lia|].
    apply Hn in H. lia.
Qed.

(** X6. Down the standings the ranks start at 1, never decrease, and the
    rank of a row is at most its 1-based position. *)
Theorem ranks_ordered (team_stats : dict TeamStats)
  (order : option (list string)) :
  let ranks := map row_rank (rank_teams_advanced team_stats order) in
  Sorted Z.le ranks
  /\ (forall r, nth_error ranks 0 = Some r -> r = 1)
  /\ forall j r, nth_error ranks j = Some r -> 1 <= r <= Z.of_nat j + 1.
Proof.
  cbn zeta. rewrite rank_teams_advanced_eq.
  destruct (sort_teams (active_order order) (map make_team_data team_stats))
    as [|t l]; cbn [assign_ranks map].
  - split; [constructor | split; [discriminate|]].
    intros [|j] r H; discriminate.
  - destruct (rank_loop_ranks (active_order order) l 1 t 1 ltac:(lia))
      as (Hh & Hs & Hn).
    split; [constructor; [exact Hs | exact Hh]
           | split; [intros r [= <-]; reflexivity|]].
    intros [|j] r H; cbn [nth_error] in H;
      [unfold row_rank in H; cbn [fst] in H; injection H as <-; lia|].
    apply Hn in H. lia.
Qed.

Lemma ranks_ordered_witness :
  Sorted Z.le (map row_rank (rank_teams_advanced leaders_level None))
  /\ 1 <= 3 <= Z.of_nat 2 + 1.
Proof.
  destruct (ranks_ordered leaders_level None) as (Hs & _ & Hn).
  split; [exact Hs | exact (Hn 2%nat 3 eq_refl)].
Defined.


Lemma StronglySorted_map {A B : Type} (f : A -> B) (R : B -> B -> Prop)
  (l : list A) :
  StronglySorted R (map f l) <-> StronglySorted (fun a b => R (f a) (f b)) l.
Proof.
  induction l as [|x l IH]; simpl.
  - split; constructor.
  - split; intros H; inversion H as [|? ? Hs Hf]; subst; constructor;
      try (now apply IH).
    + rewrite Forall_forall in *. intros y Hy. apply Hf. now apply in_map.
    + rewrite Forall_forall in *. intros y Hy. apply in_map_iff in Hy.
      destruct Hy as (z & <- & Hz). now apply Hf.
Qed.

Lemma StronglySorted_impl {A : Type} (R R' : A -> A -> Prop) (l : list A) :
  (forall a b, R a b -> R' a b) -> StronglySorted R l -> StronglySorted R' l.
Proof.
  intros H. induction 1 as [|x l Hs IH Hf]; constructor; [exact IH|].
  eapply Forall_impl; [|exact Hf]. intros y. apply H.
Qed.

Lemma default_order_views (a b : team_data) :
  in_order (get_sort_key default_tiebreaker_order) tuple_lt a b ->
  t_points b < t_points a
  \/ (t_points b = t_points a /\ t_goal_diff b <= t_goal_diff a).
Proof.
  unfold in_order. simpl.
  destruct (Z.eqb_spec (- t_points b) (- t_points a)) as [E|N].
  - destruct (Z.eqb_spec (- t_goal_diff b) (- t_goal_diff a)) as [E'|N'].
    + intros _. right. lia.
    + intros H. apply Z.ltb_ge in H. right. lia.
  - intros H. apply Z.ltb_ge in H. left. lia.
Qed.

(** X7. Under the default tie-break order every row of the standings has at
    least the points of every row below it, and with equal points at least
    its goal difference; so the leader has the most points. *)
Theorem default_standings_order (team_stats : dict TeamStats) :
  StronglySorted row_before (rank_teams_advanced team_stats None).
Proof.
  rewrite rank_teams_advanced_eq.
  apply (StronglySorted_map row_view
           (fun v v' =>
              snd (fst v') < snd (fst v)
              \/ (snd (fst v') = snd (fst v) /\ snd v' <= snd v))).
  rewrite assign_ranks_view. apply StronglySorted_map.
  eapply StronglySorted_impl; [|apply sort_teams_sorted].
  intros a b H. apply default_order_views in H. exact H.
Qed.

(** Two teams are tied exactly when their sort keys are equal. *)
Lemma is_tie_key (o : list string) (a b : team_data) :
  is_tie o a b = true <-> get_sort_key o a = get_sort_key o b.
Proof.
  induction o as [|c o IH]; [simpl; tauto|].
  rewrite is_tie_cons. unfold criterion_stat. cbn [get_sort_key].
  destruct (c =? "points")%string;
    [|destruct (c =? "goal_diff")%string;
      [|destruct (c =? "goals_for")%string;
        [|destruct (c =? "wins")%string; [|exact IH]]]];
    rewrite andb_true_iff, Z.eqb_eq, IH;
    (split; [intros [E ->]; now rewrite E | intros [= E E']; split; [lia | exact E']]).
Qed.

Lemma tied_key (o : list string) (a b : team_data) :
  tied o a b <-> get_sort_key o a = get_sort_key o b.
Proof. rewrite <- is_tie_spec. apply is_tie_key. Qed.

(** In a sorted sequence a team between two tied teams is tied with both. *)
Lemma tied_between (o : list string) (a t b : team_data) :
  in_order (get_sort_key o) tuple_lt a t ->
  in_order (get_sort_key o) tuple_lt t b ->
  tied o b a -> tied o t a.
Proof.
  unfold in_order. rewrite !tied_key. intros H1 H2 E. rewrite E in H2.
  symmetry. now apply tuple_le_antisym.
Qed.

Lemma rank_loop_groups (o : list string) (l : list team_data) :
  forall (i : Z) (prev : team_data) (cr : Z),
    cr <= i ->
    StronglySorted (in_order (get_sort_key o) tuple_lt) (prev :: l) ->
    let rows := rank_loop o i prev cr l in
    (forall j b rb,
        nth_error l j = Some b -> nth_error rows j = Some rb ->
        (row_rank rb = cr <-> tied o b prev))
    /\ (forall j1 j2 a b ra rb,
           (j1 < j2)%nat ->
           nth_error l j1 = Some a -> nth_error l j2 = Some b ->
           nth_error rows j1 = Some ra -> nth_error rows j2 = Some rb ->
           (row_rank rb = row_rank ra <-> tied o b a)).
Proof.
  induction l as [|t l IH]; intros i prev cr Hcr Hs; cbn zeta.
  - split; intros; destruct j1 + destruct j; discriminate.
  - cbn [rank_loop].
    set (cr' := if is_tie o t prev then cr else i + 1).
    assert (Hc : cr <= cr' <= i + 1)
      by (subst cr'; destruct (is_tie o t prev); lia).
    inversion Hs as [|? ? Hs' Hf]; subst.
    inversion Hs' as [|? ? Hs'' Hf']; subst.
    inversion Hf as [|? ? Hpt Hfl]; subst.
    destruct (IH (i + 1) t cr' ltac:(lia) Hs') as (IH1 & IH2).
    destruct (rank_loop_ranks o l (i + 1) t cr' ltac:(lia)) as (_ & _ & Hb).
    assert (Hhead : cr' = cr <-> tied o t prev).
    { subst cr'. destruct (is_tie o t prev) eqn:E.
      - apply is_tie_spec in E. tauto.
      - split; [lia|]. intros T. apply is_tie_spec in T. congruence. }
    split.
    + intros [|j] b rb Hl Hr; cbn [nth_error] in Hl, Hr.
      * injection Hl as <-. injection Hr as <-.
        unfold row_rank; cbn [fst]. exact Hhead.
      * specialize (IH1 j b rb Hl Hr).
        assert (Hge : cr' <= row_rank rb).
        { apply (Hb j). rewrite nth_error_map, Hr. reflexivity. }
        assert (Htb : in_order (get_sort_key o) tuple_lt t b).
        { rewrite Forall_forall in Hf'. apply Hf'.
          eapply nth_error_In, Hl. }
        split.
        -- intros E. assert (E' : cr' = cr) by lia.
           assert (Tbt : tied o b t) by (apply IH1; lia).
           pose proof (proj1 Hhead E') as Ttp.
           intros c f Hin Hcf. rewrite (Tbt c f Hin Hcf).
           exact (Ttp c f Hin Hcf).
        -- intros T.
           pose proof (tied_between o prev t b Hpt Htb T) as Ttp.
           pose proof (proj2 Hhead Ttp) as E'.
           assert (Tbt : tied o b t).
           { intros c f Hin Hcf. rewrite (T c f Hin Hcf). symmetry.
             exact (Ttp c f Hin Hcf). }
           apply IH1 in Tbt. lia.
    + intros [|j1] [|j2] a b ra rb Hlt Ha Hb' Hra Hrb;
        cbn [nth_error] in Ha, Hb', Hra, Hrb; try lia.
      * injection Ha as <-. injection Hra as <-.
        unfold row_rank at 2; cbn [fst]. exact (IH1 j2 b rb Hb' Hrb).
      * apply (IH2 j1 j2 a b ra rb); [lia | assumption..].
Qed.

(** X8. Tie groups: two teams of the standings have the same rank exactly
    when they are tied on every criterion of the active tie-break order. *)
Theorem same_rank_iff_tied (team_stats : dict TeamStats)
  (order : option (list string)) (j1 j2 : nat) (a b : team_data)
  (ra rb : StandingsRow) :
  let o := active_order order in
  let sorted := sort_teams o (map make_team_data team_stats) in
  let rows := rank_teams_advanced team_stats order in
  (j1 < j2)%nat ->
  nth_error sorted j1 = Some a -> nth_error sorted j2 = Some b ->
  nth_error rows j1 = Some ra -> nth_error rows j2 = Some rb ->
  (row_rank rb = row_rank ra <-> tied o b a).
Proof.
  cbn zeta. rewrite rank_teams_advanced_eq.
  pose proof (sort_teams_sorted (active_order order)
                (map make_team_data team_stats)) as Hs.
  destruct (sort_teams (active_order order) (map make_team_data team_stats))
    as [|t l]; [destruct j1; discriminate|].
  cbn [assign_ranks].
  destruct (rank_loop_groups (active_order order) l 1 t 1 ltac:(lia) Hs)
    as (G1 & G2).
  destruct j1 as [|j1], j2 as [|j2]; cbn [nth_error]; try lia;
    intros Hlt Ha Hb Hra Hrb.
  - injection Ha as <-. injection Hra as <-.
    unfold row_rank at 2; cbn [fst]. exact (G1 j2 b rb Hb Hrb).
  - apply (G2 j1 j2 a b ra rb); [lia | assumption..].
Qed.

Lemma same_rank_iff_tied_witness :
  row_rank (1, "B"%string, 6, 3) = row_rank (1, "A"%string, 6, 3)
  <-> tied default_tiebreaker_order (mkTeam "B" 6 3 4 2) (mkTeam "A" 6 3 4 2).
Proof.
  apply (same_rank_iff_tied leaders_level None 0 1); [lia | reflexivity..].
Defined.

(** X9. Idempotent ranking: ranking the same teams listed in the order of
    the standings gives the same standings again. *)
Theorem rank_standings_again (team_stats team_stats' : dict TeamStats)
  (order : option (list string)) :
  map make_team_data team_stats'
  = sort_teams (active_order order) (map make_team_data team_stats) ->
  rank_teams_advanced team_stats' order = rank_teams_advanced team_stats order.
Proof.
  intros E. rewrite !rank_teams_advanced_eq, E. f_equal.
  apply sort_by_fixed, StronglySorted_Sorted, sort_teams_sorted.
Qed.

Lemma rank_standings_again_witness :
  rank_teams_advanced leaders_apart None
  = rank_teams_advanced (rev leaders_apart) None.
Proof.
  apply (rank_standings_again (rev leaders_apart) leaders_apart None).
  reflexivity.
Defined.

Lemma get_sort_key_known (o : list string) (t : team_data) :
  get_sort_key (filter known_criterion o) t = get_sort_key o t.
Proof.
  induction o as [|c o IH]; [reflexivity|].
  cbn [filter]. unfold known_criterion at 1, criterion_stat.
  cbn [get_sort_key].
  destruct (String.eqb_spec c "points") as [->|_];
    [simpl; now rewrite IH|].
  destruct (String.eqb_spec c "goal_diff") as [->|_];
    [simpl; now rewrite IH|].
  destruct (String.eqb_spec c "goals_for") as [->|_];
    [simpl; now rewrite IH|].
  destruct (String.eqb_spec c "wins") as [->|_];
    [simpl; now rewrite IH|].
  exact IH.
Qed.

Lemma is_tie_known (o : list string) (a b : team_data) :
  is_tie (filter known_criterion o) a b = is_tie o a b.
Proof.
  apply eq_true_iff_eq. now rewrite !is_tie_key, !get_sort_key_known.
Qed.

Lemma rank_loop_ext (o o' : list string) (l : list team_data) :
  (forall a b, is_tie o a b = is_tie o' a b) ->
  forall i prev cr, rank_loop o i prev cr l = rank_loop o' i prev cr l.
Proof.
  intros E. induction l as [|t l IH]; intros i prev cr; simpl;
    [reflexivity|].
  now rewrite E, IH.
Qed.

Lemma rank_known_only (team_stats : dict TeamStats) (o : list string) :
  rank_teams_advanced team_stats (Some o)
  = rank_teams_advanced team_stats (Some (filter known_criterion o)).
Proof.
  rewrite !rank_teams_advanced_eq. cbn [active_order].
  unfold sort_teams.
  rewrite (sort_by_ext (get_sort_key (filter known_criterion o))
             (get_sort_key o)) by apply get_sort_key_known.
  generalize (sort_by (get_sort_key o) tuple_lt
                (map make_team_data team_stats)).
  intros [|t l]; [reflexivity|]. cbn [assign_ranks]. f_equal.
  apply rank_loop_ext. intros a b. symmetry. apply is_tie_known.
Qed.

(** X10. Criterion names the ranker does not know are ignored: the
    standings are those of the tie-break list without them. *)
Theorem unknown_criteria_ignored (team_stats : dict TeamStats)
  (o : list string) :
  rank_teams_advanced team_stats (Some o)
  = rank_teams_advanced team_stats (Some (filter known_criterion o)).
Proof. apply rank_known_only. Qed.

Lemma Sorted_always {A : Type} (R : A -> A -> Prop) (l : list A) :
  (forall a b, R a b) -> Sorted R l.
Proof.
  intros H. induction l as [|x l IH]; constructor; [exact IH|].
  destruct l; constructor. apply H.
Qed.

Lemma rank_loop_all_tied (l : list team_data) (i : Z) (prev : team_data)
  (cr : Z) :
  rank_loop [] i prev cr l
  = map (fun t => (cr, t_name t, t_points t, t_goal_diff t)) l.
Proof.
  revert i prev; induction l as [|t l IH]; intros i prev; simpl;
    [reflexivity | now rewrite IH].
Qed.

(** X11. With a tie-break list that names no known criterion (the empty
    list among them) every team gets rank 1 and the standings keep the
    order of the mapping. *)
Theorem no_criterion_all_first (team_stats : dict TeamStats)
  (o : list string) :
  (forall c, In c o -> known_criterion c = false) ->
  rank_teams_advanced team_stats (Some o)
  = map (fun kv => (1, fst kv, points (snd kv), goal_diff (snd kv)))
      team_stats.
Proof.
  intros H.
  assert (E : filter known_criterion o = []).
  { induction o as [|c o IH]; [reflexivity|]. simpl.
    rewrite (H c (or_introl eq_refl)). apply IH.
    intros c' Hc. apply H. now right. }
  rewrite rank_known_only, E, rank_teams_advanced_eq. cbn [active_order].
  unfold sort_teams. rewrite sort_by_fixed by (now apply Sorted_always).
  destruct team_stats as [|kv ts]; [reflexivity|].
  cbn [map assign_ranks]. rewrite rank_loop_all_tied, map_map. reflexivity.
Qed.

Lemma no_criterion_all_first_witness :
  rank_teams_advanced leaders_apart (Some ["draws"%string])
  = map (fun kv => (1, fst kv, points (snd kv), goal_diff (snd kv)))
      leaders_apart.
Proof.
  apply (no_criterion_all_first leaders_apart ["draws"%string]).
  intros c [<-|[]]. reflexivity.
Defined.

(** ** Reporter: the maxima and the goal distribution *)




Lemma upset_step_margin (rank_dict : dict Z) (st : option upset * Z)
  (m : MatchRecord) :
  -1 <= snd st ->
  (upset_margin rank_dict m <= snd st /\ upset_step rank_dict st m = st)
  \/ (exists wr lr,
         upset_of rank_dict m = Some (wr, lr)
         /\ snd st < wr - lr
         /\ upset_step rank_dict st m = (Some (mkUpset m wr lr), wr - lr)).
Proof.
  intros H. rewrite upset_step_eq. unfold upset_margin.
  destruct (upset_of rank_dict m) as [[wr lr]|]; [|left; split; [lia|reflexivity]].
  destruct (Z.gtb_spec (wr - lr) (snd st)) as [G|G].
  - right. exists wr, lr. repeat apply conj; [reflexivity | lia | reflexivity].
  - left. split; [lia | reflexivity].
Qed.

(** The scan keeps the first match whose margin exceeds every margin before
    it and the initial value. *)
Lemma upset_scan_first (rank_dict : dict Z) (l : list MatchRecord) :
  forall st,
    -1 <= snd st ->
    (fold_left (upset_step rank_dict) l st = st
     /\ forall y, In y l -> upset_margin rank_dict y <= snd st)
    \/ (exists pre m post wr lr,
           l = pre ++ m :: post
           /\ upset_of rank_dict m = Some (wr, lr)
           /\ fold_left (upset_step rank_dict) l st
              = (Some (mkUpset m wr lr), wr - lr)
           /\ snd st < wr - lr
           /\ (forall y, In y pre -> upset_margin rank_dict y < wr - lr)
           /\ (forall y, In y post -> upset_margin rank_dict y <= wr - lr)).
Proof.
  induction l as [|m l IH]; intros st Hst.
  - left. split; [reflexivity | intros y []].
  - cbn [fold_left].
    destruct (upset_step_margin rank_dict st m Hst)
      as [[Hm ->] | (wr & lr & Hu & Hgt & ->)].
    + destruct (IH st Hst)
        as [[E Hall] | (pre & m' & post & wr & lr & El & Hu & E & Hgt & Hpre & Hpost)].
      * left. split; [exact E|]. intros y [<-|Hy]; [exact Hm | now apply Hall].
      * right. exists (m :: pre), m', post, wr, lr. subst l.
        repeat apply conj; try assumption; try reflexivity.
        intros y [<-|Hy]; [lia | now apply Hpre].
    + destruct (IH (Some (mkUpset m wr lr), wr - lr) ltac:(cbn [snd]; lia))
        as [[E Hall] | (pre & m' & post & wr' & lr' & El & Hu' & E & Hgt' & Hpre & Hpost)];
        cbn [snd] in *.
      * right. exists [], m, l, wr, lr.
        repeat apply conj; try assumption; try reflexivity. intros y [].
      * right. exists (m :: pre), m', post, wr', lr'. subst l.
        repeat apply conj; try assumption; try reflexivity; [lia|].
        intros y [<-|Hy]; [|now apply Hpre].
        unfold upset_margin. rewrite Hu. exact Hgt'.
Qed.

(** X13. When the report names a biggest upset, it is the first match of
    the list with the greatest rank difference among the upsets, and the two
    ranks it reports are those of that match. *)
Theorem biggest_upset_first (matches_list : list MatchRecord)
  (team_stats : dict TeamStats) (tournament_table : list StandingsRow)
  (u : upset) :
  biggest_upset
    (generate_analytics_report matches_list team_stats tournament_table)
  = Some u ->
  let rank_dict := build_rank_dict tournament_table in
  upset_of rank_dict (upset_match u) = Some (winner_rank u, loser_rank u)
  /\ first_max (upset_margin rank_dict) (upset_match u) matches_list.
Proof.
  unfold generate_analytics_report.
  destruct matches_list as [|m0 ms]; [discriminate|].
  destruct team_stats as [|kv ts]; [discriminate|].
  destruct tournament_table as [|r rs]; [discriminate|].
  cbn [biggest_upset]. unfold find_biggest_upset.
  set (ml := m0 :: ms). set (tb := r :: rs).
  destruct (upset_scan_first (build_rank_dict tb) ml (None, -1)
              ltac:(cbn [snd]; lia))
    as [[E _] | (pre & m & post & wr & lr & El & Hu & E & _ & Hpre & Hpost)];
    rewrite E; cbn [fst]; [discriminate|].
  intros [= <-]. cbn zeta. cbn [upset_match winner_rank loser_rank].
  split; [exact Hu|].
  exists pre, post. unfold upset_margin at 2 4. rewrite Hu. auto.
Qed.

Lemma biggest_upset_first_witness :
  let rank_dict := build_rank_dict upset_table in
  let m := mkMatch "2024-03-02" "Delta" 2 "Alpha" 1 "Dome" 150 in
  upset_of rank_dict m = Some (4, 1)
  /\ first_max (upset_margin rank_dict) m upset_matches.
Proof.
  apply (biggest_upset_first upset_matches leaders_apart upset_table
           (mkUpset (mkMatch "2024-03-02" "Delta" 2 "Alpha" 1 "Dome" 150)
              4 1)).
  reflexivity.
Defined.






(** ** The stages together: aggregator, ranker and reporter *)

Lemma rows_views (team_stats : dict TeamStats) (order : option (list string)) :
  Permutation (map row_view (rank_teams_advanced team_stats order))
    (map stats_view team_stats).
Proof.
  rewrite rank_teams_advanced_eq, assign_ranks_view.
  replace (map stats_view team_stats)
    with (map team_view (map make_team_data team_stats))
    by (rewrite map_map; reflexivity).
  apply Permutation_map, sort_by_perm.
Qed.

Lemma rows_teams (team_stats : dict TeamStats) (order : option (list string)) :
  Permutation (map row_team (rank_teams_advanced team_stats order))
    (keys team_stats).
Proof.
  pose proof (rows_views team_stats order) as Hv.
  apply (Permutation_map (fun v => fst (fst v))) in Hv.
  rewrite !map_map in Hv. exact Hv.
Qed.






(** ** Filter: what a call returns *)

Lemma comprehension_some (cond : MatchRecord -> option bool)
  (ms r : list MatchRecord) :
  comprehension cond ms = Some r ->
  r = filter (fun m => match cond m with Some true => true | _ => false end) ms.
Proof.
  revert r. induction ms as [|m ms IH]; simpl; intros r H.
  - now injection H as <-.
  - destruct (cond m) as [b|]; [|discriminate].
    destruct (comprehension cond ms) as [r'|]; [|discriminate].
    injection H as <-. rewrite (IH r' eq_refl). now destruct b.
Qed.

Lemma filter_step_passes (ms r : list MatchRecord) (kv : string * value) :
  filter_step ms kv = Some r -> r = filter (passes_one kv) ms.
Proof.
  unfold filter_step, passes_one.
  destruct (criterion_cond (fst kv) (snd kv)) as [cond|].
  - apply comprehension_some.
  - intros H. injection H as <-. clear. induction ms as [|m ms IH]; simpl;
      [reflexivity | now rewrite <- IH].
Qed.

Lemma filter_loop_passes (criteria : dict value) :
  forall ms r,
    filter_loop ms criteria = Some r -> r = filter (passes criteria) ms.
Proof.
  induction criteria as [|kv rest IH]; intros ms r; cbn [filter_loop].
  - intros H. injection H as <-. clear. induction ms as [|m ms IH]; simpl;
      [reflexivity | now rewrite <- IH].
  - destruct (filter_step ms kv) as [ms1|] eqn:E; [|discriminate].
    intros H. apply IH in H. apply filter_step_passes in E.
    rewrite H, E, filter_filter. reflexivity.
Qed.

Lemma comprehension_all (cond : MatchRecord -> option bool)
  (l : list MatchRecord) :
  (forall m, In m l -> cond m = Some true) -> comprehension cond l = Some l.
Proof.
  induction l as [|m l IH]; simpl; intros H; [reflexivity|].
  rewrite (H m (or_introl eq_refl)), IH; [reflexivity|].
  intros x Hx. apply H. now right.
Qed.

Lemma filter_loop_all (criteria : dict value) (l : list MatchRecord) :
  (forall m, In m l -> passes criteria m = true) ->
  filter_loop l criteria = Some l.
Proof.
  induction criteria as [|kv rest IH]; cbn [filter_loop]; intros H;
    [reflexivity|].
  assert (E : filter_step l kv = Some l).
  { unfold filter_step.
    destruct (criterion_cond (fst kv) (snd kv)) as [cond|] eqn:Ec;
      [|reflexivity].
    apply comprehension_all. intros m Hm. specialize (H m Hm).
    cbn [passes forallb] in H. apply andb_true_iff in H.
    destruct H as [H _]. unfold passes_one in H. rewrite Ec in H.
    destruct (cond m) as [[|]|]; [reflexivity | discriminate | discriminate]. }
  rewrite E. apply IH. intros m Hm. specialize (H m Hm).
  cbn [passes forallb] in H. apply andb_true_iff in H. exact (proj2 H).
Qed.

(** X17. Whenever the filter returns a list, it is the list of the input
    matches, in their order, on which every recognised criterion can be
    compared and holds. *)
Theorem filter_returns_passing (matches_list r : list MatchRecord)
  (criteria : dict value) :
  filter_matches_by_criteria matches_list criteria = Some r ->
  r = filter (passes criteria) matches_list.
Proof.
  rewrite filter_matches_eq. apply filter_loop_passes.
Qed.

Lemma filter_returns_passing_witness :
  [mkMatch "2024-03-01" "Alpha" 3 "Beta" 0 "Arena" 100;
   mkMatch "2024-03-02" "Delta" 2 "Alpha" 1 "Dome" 150]
  = filter (passes by_goals) upset_matches.
Proof.
  apply (filter_returns_passing upset_matches _ by_goals). reflexivity.
Defined.

(** X18. Filtering the returned list again with the same criteria returns it
    unchanged. *)
Theorem filter_again (matches_list r : list MatchRecord)
  (criteria : dict value) :
  filter_matches_by_criteria matches_list criteria = Some r ->
  filter_matches_by_criteria r criteria = Some r.
Proof.
  rewrite !filter_matches_eq. intros H. apply filter_loop_passes in H.
  apply filter_loop_all. intros m Hm. rewrite H in Hm.
  apply filter_In in Hm. exact (proj2 Hm).
Qed.

Lemma filter_again_witness :
  filter_matches_by_criteria
    [mkMatch "2024-03-01" "Alpha" 3 "Beta" 0 "Arena" 100;
   mkMatch "2024-03-02" "Delta" 2 "Alpha" 1 "Dome" 150] by_goals
  = Some [mkMatch "2024-03-01" "Alpha" 3 "Beta" 0 "Arena" 100;
   mkMatch "2024-03-02" "Delta" 2 "Alpha" 1 "Dome" 150].
Proof.
  apply (filter_again upset_matches _ by_goals). reflexivity.
Defined.

Lemma filter_loop_recognized (criteria : dict value) :
  forall ms,
    filter_loop ms criteria
    = filter_loop ms (filter (fun kv => recognized (fst kv)) criteria).
Proof.
  induction criteria as [|kv rest IH]; intros ms; [reflexivity|].
  cbn [filter]. destruct (recognized (fst kv)) eqn:E; cbn [filter_loop].
  - destruct (filter_step ms kv); [apply IH | reflexivity].
  - unfold filter_step. rewrite (unrecognized_cond _ _ E). apply IH.
Qed.

(** X19. Keyword arguments whose name is none of the seven criteria do not
    change the outcome of a call: it is that of the call without them. *)
Theorem unrecognized_keys_ignored (matches_list : list MatchRecord)
  (criteria : dict value) :
  filter_matches_by_criteria matches_list criteria
  = filter_matches_by_criteria matches_list
      (filter (fun kv => recognized (fst kv)) criteria).
Proof.
  rewrite !filter_matches_eq. apply filter_loop_recognized.
Qed.

Lemma keep_all_perm (c c' : dict value) (m : MatchRecord) :
  Permutation c c' -> keep_all c m = keep_all c' m.
Proof.
  unfold keep_all. induction 1 as [|x l l' _ IH|x y l|l l' l'' _ IH1 _ IH2];
    cbn [forallb].
  - reflexivity.
  - now rewrite IH.
  - now rewrite !andb_assoc, (andb_comm (keep y m)).
  - now rewrite IH1.
Qed.

(** X20. For criteria whose values have the type their key compares with,
    the order in which the keyword arguments are given does not change the
    returned list. *)
Theorem criteria_order_irrelevant (matches_list : list MatchRecord)
  (c c' : dict value) :
  well_typed c ->
  Permutation c c' ->
  filter_matches_by_criteria matches_list c
  = filter_matches_by_criteria matches_list c'.
Proof.
  intros Hc P.
  assert (Hc' : well_typed c').
  { rewrite well_typed_spec in *. intros kv Hkv. apply Hc.
    apply Permutation_sym in P. exact (Permutation_in _ P Hkv). }
  rewrite !filter_matches_eq, (filter_loop_total _ _ Hc),
    (filter_loop_total _ _ Hc').
  f_equal. apply filter_ext. intros m. now apply keep_all_perm.
Qed.

Lemma criteria_order_irrelevant_witness :
  filter_matches_by_criteria upset_matches (by_team ++ by_goals)
  = filter_matches_by_criteria upset_matches (by_goals ++ by_team).
Proof.
  apply (criteria_order_irrelevant upset_matches (by_team ++ by_goals)
           (by_goals ++ by_team)).
  - reflexivity.
  - apply (Permutation_app_comm by_team by_goals).
Defined.

(** ** Parser: rejected lines and the records it returns *)

Lemma s2c_c2s (s : chars) : s2c (c2s s) = s.
Proof. apply list_ascii_of_string_of_list_ascii. Qed.

Lemma split_join (fields : list chars) :
  fields <> [] ->
  Forall (fun f => ~ In "|"%char f) fields ->
  split (s2c " | ") (join (s2c " | ") fields) = fields.
Proof.
  intros Hne H. induction H as [|f rest Hf Hrest IH]; [contradiction|].
  destruct rest as [|g rest].
  - cbn [join]. rewrite split_eq by discriminate.
    now rewrite (find_bar_none f Hf).
  - change (join (s2c " | ") (f :: g :: rest))
      with (f ++ s2c " | " ++ join (s2c " | ") (g :: rest)).
    rewrite split_eq by discriminate. rewrite (find_bar f _ Hf).
    f_equal. apply IH. discriminate.
Qed.

(** X21. Fields without [|] joined by [ | ] are rejected with the four-parts
    message whenever their number is not four. *)
Theorem wrong_field_count_rejected (fields : list chars) :
  Forall (fun f => ~ In "|"%char f) fields ->
  List.length fields <> 4%nat ->
  rejected_with "Invalid format: expected 4 parts separated by ' | '"
    (parse_match_data (c2s (join (s2c " | ") fields))).
Proof.
  intros H Hn. unfold rejected_with, parse_match_data, parse_chars.
  rewrite s2c_c2s.
  destruct fields as [|a fields]; [reflexivity|].
  rewrite split_join by (discriminate || exact H).
  destruct fields as [|b [|c [|d [|e fields]]]]; try reflexivity.
  now contradiction Hn.
Qed.

Lemma wrong_field_count_rejected_witness :
  rejected_with "Invalid format: expected 4 parts separated by ' | '"
    (parse_match_data "2024-01-01 | Alpha (2:0) Beta | Arena").
Proof.
  apply (wrong_field_count_rejected
           [s2c "2024-01-01"; s2c "Alpha (2:0) Beta"; s2c "Arena"]).
  - repeat constructor; simpl; intuition discriminate.
  - simpl. lia.
Defined.

Lemma lstrip_head_not (s : chars) : head_not is_space (lstrip s).
Proof.
  induction s as [|c s IH]; simpl; [exact I|].
  destruct (is_space c) eqn:E; [exact IH | exact E].
Qed.

Lemma lstrip_keeps (s : chars) : head_not is_space s -> lstrip s = s.
Proof.
  destruct s as [|c s]; simpl; [reflexivity|]. now intros ->.
Qed.

Lemma lstrip_snoc (s : chars) (c : ascii) :
  is_space c = false -> lstrip (s ++ [c]) = lstrip s ++ [c].
Proof.
  intros Hc. induction s as [|x s IH]; simpl.
  - now rewrite Hc.
  - destruct (is_space x); [exact IH | reflexivity].
Qed.

Lemma rstrip_head_not (s : chars) :
  head_not is_space s -> head_not is_space (rstrip s).
Proof.
  destruct s as [|c s]; [intros _; exact I|]. intros Hc. simpl in Hc.
  unfold rstrip. cbn [rev]. rewrite (lstrip_snoc _ _ Hc), rev_app_distr.
  exact Hc.
Qed.

Lemma strip_strip (s : chars) : strip (strip s) = strip s.
Proof.
  unfold strip.
  rewrite (lstrip_keeps (rstrip (lstrip s)))
    by apply rstrip_head_not, lstrip_head_not.
  unfold rstrip. rewrite rev_involutive.
  now rewrite (lstrip_keeps (lstrip _)) by apply lstrip_head_not.
Qed.

Lemma c2s_nonempty (s : chars) : is_empty s = false -> c2s s <> EmptyString.
Proof. destruct s; [discriminate | intros _; discriminate]. Qed.

(** X22. A record the parser returns has non-negative scores, a positive
    attendance, non-empty team and stadium names without whitespace at
    either end, and a date that passes the date check. *)
Theorem parsed_record_valid (match_string : string) (r : MatchRecord) :
  parse_match_data match_string = Parsed r ->
  0 <= score1 r /\ 0 <= score2 r /\ 0 < attendance r
  /\ team1 r <> EmptyString /\ team2 r <> EmptyString
  /\ stadium r <> EmptyString
  /\ trimmed (team1 r) /\ trimmed (team2 r) /\ trimmed (stadium r)
  /\ check_date (s2c (date r)) = DateOk.
Proof.
  unfold parse_match_data, parse_chars.
  destruct (split (s2c " | ") (s2c match_string))
    as [|a [|b [|c [|d [|e l]]]]]; try discriminate.
  destruct (check_date a) eqn:Ed; try discriminate.
  destruct (re_match pattern (strip b)) as [g|]; [|discriminate].
  destruct (g 1%nat) as [t1|]; [|discriminate].
  destruct (g 2%nat) as [x1|]; [|discriminate].
  destruct (g 3%nat) as [x2|]; [|discriminate].
  destruct (g 4%nat) as [t2|]; [|discriminate].
  destruct (is_empty (strip t1) || is_empty (strip t2) || is_empty (strip c))
    eqn:Ee; [discriminate|].
  apply orb_false_iff in Ee. destruct Ee as [Ee E3].
  apply orb_false_iff in Ee. destruct Ee as [E1 E2].
  destruct (py_int x1) as [n1|]; [|discriminate].
  destruct (py_int x2) as [n2|]; [|discriminate].
  destruct ((n1 <? 0) || (n2 <? 0)) eqn:En; [discriminate|].
  apply orb_false_iff in En. destruct En as [H1 H2].
  destruct (py_int d) as [n|]; [|discriminate].
  destruct (n <=? 0) eqn:Ha; [discriminate|].
  intros H. injection H as <-.
  cbn [score1 score2 attendance team1 team2 stadium date].
  unfold trimmed. rewrite !s2c_c2s, !strip_strip.
  apply Z.ltb_ge in H1, H2. apply Z.leb_gt in Ha.
  repeat apply conj; try assumption; try reflexivity;
    now apply c2s_nonempty.
Qed.

Lemma parsed_record_valid_witness :
  let r := mkMatch "2024-1-5" "A" 1 "B" 1 "X" 10 in
  0 <= score1 r /\ 0 <= score2 r /\ 0 < attendance r
  /\ team1 r <> EmptyString /\ team2 r <> EmptyString
  /\ stadium r <> EmptyString
  /\ trimmed (team1 r) /\ trimmed (team2 r) /\ trimmed (stadium r)
  /\ check_date (s2c (date r)) = DateOk.
Proof.
  apply (parsed_record_valid "2024-1-5 |   A (1:1) B   | X  | 10").
  reflexivity.
Defined.

(** On a line of framed texts the split and the pattern hand each text to
    its check, and the checks run in the order date, names, scores,
    attendance. *)
Lemma parse_line_of (date_str team1 s1 s2 team2 stadium_str attendance_str
                     : chars) :
  framed date_str team1 s1 s2 team2 stadium_str attendance_str ->
  parse_match_data
    (line_of date_str team1 s1 s2 team2 stadium_str attendance_str)
  = match check_date date_str with
    | DateOverflowError => OverflowError
    | DateValueError => ValueError "Invalid date format: expected YYYY-MM-DD"
    | DateOk =>
        if is_empty (strip stadium_str) then
          ValueError "Team names and stadium cannot be empty"
        else
          match py_int s1, py_int s2 with
          | Some score1, Some score2 =>
              if (score1 <? 0) || (score2 <? 0) then
                ValueError "Invalid score: must be non-negative integers"
              else
                match py_int attendance_str with
                | Some attendance =>
                    if attendance <=? 0 then
                      ValueError
                        "Invalid attendance: must be a positive integer"
                    else
                      Parsed
                        (mkMatch (c2s date_str) (c2s team1) score1
                           (c2s team2) score2 (c2s (strip stadium_str))
                           attendance)
                | None =>
                    ValueError "Invalid attendance: must be a positive integer"
                end
          | _, _ => ValueError "Invalid score: must be non-negative integers"
          end
    end.
Proof.
  intros (Hb & P1 & Hp1 & P2 & N1 & C1 & N2 & C2).
  inversion Hb as [|? ? Bd Hb1]; subst.
  inversion Hb1 as [|? ? Bt1 Hb2]; subst.
  inversion Hb2 as [|? ? Bs1 Hb3]; subst.
  inversion Hb3 as [|? ? Bs2 Hb4]; subst.
  inversion Hb4 as [|? ? Bt2 Hb5]; subst.
  inversion Hb5 as [|? ? Bst Hb6]; subst.
  inversion Hb6 as [|? ? Ba _]; subst.
  unfold parse_match_data, parse_chars, line_of. rewrite s2c_c2s.
  cbn [join]. rewrite split_line; [| exact Bd | | exact Bst | exact Ba].
  2:{ unfold block. rewrite !in_app_iff. simpl. intuition discriminate. }
  destruct (check_date date_str); [|reflexivity|reflexivity].
  rewrite (strip_block _ _ _ _ P1 P2),
    (re_match_block _ _ _ _ P1 (lacks_no_score_start _ Hp1) N1 C1 N2 C2 P2).
  cbn [four_groups set_group Nat.eqb].
  destruct P1 as (Ne1 & T1 & _), P2 as (Ne2 & T2 & _).
  rewrite T1, T2.
  assert (Hne : forall s : chars, s <> [] -> is_empty s = false)
    by (intros [|x s] Hs; [contradiction | reflexivity]).
  rewrite (Hne _ Ne1), (Hne _ Ne2). cbn [orb]. reflexivity.
Qed.

(** X23. On a line of framed texts with a date that passes the date check:
    a blank stadium is rejected whatever the numbers are; otherwise score
    texts that are not both non-negative integers are rejected whatever the
    attendance is; otherwise an attendance text that is not a positive
    integer is rejected. *)
Theorem text_fields_rejected (date_str team1 s1 s2 team2 stadium_str
                              attendance_str : chars) :
  framed date_str team1 s1 s2 team2 stadium_str attendance_str ->
  check_date date_str = DateOk ->
  let result :=
    parse_match_data
      (line_of date_str team1 s1 s2 team2 stadium_str attendance_str) in
  (strip stadium_str = [] ->
   rejected_with "Team names and stadium cannot be empty" result)
  /\ (strip stadium_str <> [] ->
      ~ (exists a b, py_int s1 = Some a /\ py_int s2 = Some b
                     /\ 0 <= a /\ 0 <= b) ->
      rejected_with "Invalid score: must be non-negative integers" result)
  /\ (strip stadium_str <> [] ->
      (exists a b, py_int s1 = Some a /\ py_int s2 = Some b
                   /\ 0 <= a /\ 0 <= b) ->
      ~ (exists n, py_int attendance_str = Some n /\ 0 < n) ->
      rejected_with "Invalid attendance: must be a positive integer" result).
Proof.
  intros Hf Hd result. unfold result, rejected_with.
  rewrite (parse_line_of _ _ _ _ _ _ _ Hf), Hd.
  split; [|split].
  - now intros ->.
  - intros Hs Hn. destruct (strip stadium_str) as [|c0 r0]; [contradiction|].
    cbn [is_empty].
    destruct (py_int s1) as [a|]; [|reflexivity].
    destruct (py_int s2) as [b|]; [|reflexivity].
    destruct (Z.ltb_spec a 0); [reflexivity|].
    destruct (Z.ltb_spec b 0); [reflexivity|].
    exfalso. apply Hn. exists a, b. auto.
  - intros Hs (a & b & -> & -> & Ha & Hb) Hn.
    destruct (strip stadium_str) as [|c0 r0]; [contradiction|]. cbn [is_empty].
    rewrite (proj2 (Z.ltb_ge a 0) Ha), (proj2 (Z.ltb_ge b 0) Hb). cbn [orb].
    destruct (py_int attendance_str) as [n|]; [|reflexivity].
    destruct (Z.leb_spec n 0); [reflexivity|].
    exfalso. apply Hn. exists n. auto.
Qed.

(** X24. On a line of framed texts with a date that passes the date check
    and a stadium that is not blank, score and attendance texts that
    [int] reads as two non-negative numbers and a positive one give the
    record with these numbers, the names as written and the stadium
    without the whitespace around it. *)
Theorem text_fields_accepted (date_str team1 s1 s2 team2 stadium_str
                              attendance_str : chars) (a b n : Z) :
  framed date_str team1 s1 s2 team2 stadium_str attendance_str ->
  check_date date_str = DateOk ->
  strip stadium_str <> [] ->
  py_int s1 = Some a -> py_int s2 = Some b -> 0 <= a -> 0 <= b ->
  py_int attendance_str = Some n -> 0 < n ->
  parse_match_data
    (line_of date_str team1 s1 s2 team2 stadium_str attendance_str)
  = Parsed
      (mkMatch (c2s date_str) (c2s team1) a (c2s team2) b
         (c2s (strip stadium_str)) n).
Proof.
  intros Hf Hd Hs E1 E2 Ha Hb En Hn.
  rewrite (parse_line_of _ _ _ _ _ _ _ Hf), Hd, E1, E2, En.
  destruct (strip stadium_str) as [|c0 r0]; [contradiction|]. cbn [is_empty].
  rewrite (proj2 (Z.ltb_ge a 0) Ha), (proj2 (Z.ltb_ge b 0) Hb). cbn [orb].
  now rewrite (proj2 (Z.leb_gt n 0) Hn).
Qed.

Lemma text_fields_rejected_witness :
  rejected_with "Invalid score: must be non-negative integers"
    (parse_match_data "2024-01-01 | Alpha (-1:2) Beta | Arena | 100")
  /\ rejected_with "Invalid attendance: must be a positive integer"
       (parse_match_data "2024-01-01 | Alpha (1:2) Beta | Arena | 0").
Proof.
  assert (F : forall s1 att,
             s1 = s2c "-1" \/ s1 = s2c "1" ->
             att = s2c "100" \/ att = s2c "0" ->
             framed (s2c "2024-01-01") (s2c "Alpha") s1 (s2c "2")
               (s2c "Beta") (s2c "Arena") att).
  { intros s1 att H1 H2. unfold framed, plain_name.
    repeat apply conj; try discriminate; try reflexivity;
      try (repeat constructor);
      destruct H1 as [-> | ->]; destruct H2 as [-> | ->];
      try discriminate; simpl; intuition discriminate. }
  split.
  - apply (proj1 (proj2
             (text_fields_rejected (s2c "2024-01-01") (s2c "Alpha")
                (s2c "-1") (s2c "2") (s2c "Beta") (s2c "Arena") (s2c "100")
                (F _ _ (or_introl eq_refl) (or_introl eq_refl)) eq_refl))).
    + discriminate.
    + intros (a & b & E1 & _ & Ha & _). vm_compute in E1.
      injection E1 as <-. lia.
  - apply (proj2 (proj2
             (text_fields_rejected (s2c "2024-01-01") (s2c "Alpha")
                (s2c "1") (s2c "2") (s2c "Beta") (s2c "Arena") (s2c "0")
                (F _ _ (or_intror eq_refl) (or_intror eq_refl)) eq_refl))).
    + discriminate.
    + exists 1, 2. repeat apply conj; try reflexivity; lia.
    + intros (n & E & Hn). vm_compute in E. injection E as <-. lia.
Defined.

Lemma text_fields_accepted_witness :
  parse_match_data "2024-01-01 | Alpha (+3: 0) Beta | Arena  | 1_000"
  = Parsed (mkMatch "2024-01-01" "Alpha" 3 "Beta" 0 "Arena" 1000).
Proof.
  apply (text_fields_accepted (s2c "2024-01-01") (s2c "Alpha") (s2c "+3")
           (s2c " 0") (s2c "Beta") (s2c "Arena ") (s2c "1_000") 3 0 1000);
    try reflexivity; try lia; try discriminate.
  unfold framed, plain_name.
  repeat apply conj; try discriminate; try reflexivity;
    try (repeat constructor); simpl; intuition discriminate.
Defined.

(** ** Ranker: the rank as a count *)

Lemma filter_all {A : Type} (p : A -> bool) (l : list A) :
  (forall x, In x l -> p x = true) -> filter p l = l.
Proof.
  induction l as [|x l IH]; simpl; intros H; [reflexivity|].
  rewrite (H x (or_introl eq_refl)), IH; [reflexivity|].
  intros y Hy. apply H. now right.
Qed.

Lemma filter_none {A : Type} (p : A -> bool) (l : list A) :
  (forall x, In x l -> p x = false) -> filter p l = [].
Proof.
  induction l as [|x l IH]; simpl; intros H; [reflexivity|].
  rewrite (H x (or_introl eq_refl)). apply IH.
  intros y Hy. apply H. now right.
Qed.

Lemma filter_length_perm {A : Type} (p : A -> bool) (l l' : list A) :
  Permutation l l' -> List.length (filter p l) = List.length (filter p l').
Proof.
  induction 1 as [|x l l' _ IH|x y l|l l' l'' _ IH1 _ IH2]; simpl.
  - reflexivity.
  - destruct (p x); simpl; now rewrite IH.
  - destruct (p x), (p y); reflexivity.
  - now rewrite IH1.
Qed.

Lemma tuple_lt_irrefl (a : list Z) : tuple_lt a a = false.
Proof.
  destruct (tuple_lt a a) eqn:E; [|reflexivity].
  now rewrite (tuple_lt_asym a a E) in E.
Qed.

Lemma tuple_lt_total (a b : list Z) :
  tuple_lt a b = false -> a <> b -> tuple_lt b a = true.
Proof.
  intros H N. destruct (tuple_lt b a) eqn:E; [reflexivity|].
  exfalso. apply N. now apply tuple_le_antisym.
Qed.

Lemma sorted_split (o : list string) (pre l : list team_data) :
  StronglySorted (in_order (get_sort_key o) tuple_lt) (pre ++ l) ->
  forall u t, In u pre -> In t l ->
    in_order (get_sort_key o) tuple_lt u t.
Proof.
  induction pre as [|x pre IH]; cbn [app]; intros H u t Hu Ht; [destruct Hu|].
  inversion H as [|? ? Hs Hall]; subst. destruct Hu as [<-|Hu].
  - rewrite Forall_forall in Hall. apply Hall, in_or_app. now right.
  - now apply IH.
Qed.

(** The invariant of the ranking loop on a sorted list: [pre] holds the
    teams before [prev], [i] is the 1-based position of [prev], and
    [current_rank] counts the teams strictly before it in the order. *)
Lemma rank_loop_count (o : list string) (l : list team_data) :
  forall (pre : list team_data) (prev : team_data) (i cr : Z),
    StronglySorted (in_order (get_sort_key o) tuple_lt) (pre ++ prev :: l) ->
    i = Z.of_nat (List.length pre) + 1 ->
    cr = competition_rank o prev (pre ++ prev :: l) ->
    forall j t r,
      nth_error l j = Some t ->
      nth_error (rank_loop o i prev cr l) j = Some r ->
      row_rank r = competition_rank o t (pre ++ prev :: l).
Proof.
  induction l as [|x l IH]; intros pre prev i cr Hs Hi Hc j t r Ht Hr;
    [destruct j; discriminate|].
  cbn [rank_loop] in Hr.
  set (L := pre ++ prev :: x :: l) in *.
  assert (Hx : (if is_tie o x prev then cr else i + 1)
               = competition_rank o x L).
  { destruct (is_tie o x prev) eqn:Et.
    - apply is_tie_key in Et. rewrite Hc.
      unfold competition_rank, strictly_better. now rewrite Et.
    - assert (Hne : get_sort_key o x <> get_sort_key o prev).
      { intros E. apply is_tie_key in E. congruence. }
      assert (Hpx : tuple_lt (get_sort_key o prev) (get_sort_key o x) = true).
      { apply tuple_lt_total; [|exact Hne].
        apply (sorted_split o (pre ++ [prev]) (x :: l));
          [unfold L in Hs; now rewrite <- app_assoc
          | apply in_or_app; right; now left | now left]. }
      unfold competition_rank, strictly_better, L.
      change (pre ++ prev :: x :: l) with (pre ++ [prev] ++ x :: l).
      rewrite app_assoc, filter_app, filter_all, filter_none, app_nil_r.
      + rewrite length_app. cbn [List.length]. lia.
      + intros u Hu.
        assert (Hxu : in_order (get_sort_key o) tuple_lt x u).
        { destruct Hu as [<-|Hu]; [apply tuple_lt_irrefl|].
          apply (sorted_split o (pre ++ [prev; x]) l);
            [unfold L in Hs; rewrite <- app_assoc; exact Hs
            | apply in_or_app; right; right; now left | exact Hu]. }
        exact Hxu.
      + intros u Hu. apply in_app_or in Hu.
        destruct Hu as [Hu|[<-|[]]]; [|exact Hpx].
        destruct (tuple_lt (get_sort_key o u) (get_sort_key o x)) eqn:E;
          [reflexivity|]. exfalso.
        assert (Hup : in_order (get_sort_key o) tuple_lt u prev).
        { apply (sorted_split o pre (prev :: x :: l));
            [exact Hs | exact Hu | now left]. }
        unfold in_order in Hup.
        pose proof (tuple_le_trans _ _ _ E Hup) as H. congruence. }
  destruct j as [|j]; cbn [nth_error] in Ht, Hr.
  - injection Ht as <-. injection Hr as <-.
    unfold row_rank. cbn [fst]. exact Hx.
  - assert (EL : L = (pre ++ [prev]) ++ x :: l)
      by (unfold L; now rewrite <- app_assoc).
    rewrite EL.
    apply (IH (pre ++ [prev]) x (i + 1)
              (if is_tie o x prev then cr else i + 1)) with (j := j);
      try assumption.
    + now rewrite <- EL.
    + rewrite length_app. cbn [List.length]. lia.
    + now rewrite <- EL.
Qed.

Lemma assign_ranks_count (o : list string) (l : list team_data) (j : nat)
  (t : team_data) (r : StandingsRow) :
  StronglySorted (in_order (get_sort_key o) tuple_lt) l ->
  nth_error l j = Some t ->
  nth_error (assign_ranks o l) j = Some r ->
  row_rank r = competition_rank o t l.
Proof.
  intros Hs Ht Hr. destruct l as [|t0 l]; [destruct j; discriminate|].
  cbn [assign_ranks] in Hr.
  assert (H0 : competition_rank o t0 (t0 :: l) = 1).
  { unfold competition_rank, strictly_better. rewrite filter_none; [reflexivity|].
    intros u [<-|Hu]; [apply tuple_lt_irrefl|].
    inversion Hs as [|? ? _ Hall]; subst. rewrite Forall_forall in Hall.
    exact (Hall u Hu). }
  destruct j as [|j]; cbn [nth_error] in Ht, Hr.
  - injection Ht as <-. injection Hr as <-. now rewrite H0.
  - apply (rank_loop_count o l [] t0 1 1 Hs eq_refl (eq_sym H0) j t r Ht Hr).
Qed.

Lemma competition_rank_perm (o : list string) (t : team_data)
  (l l' : list team_data) :
  Permutation l l' -> competition_rank o t l = competition_rank o t l'.
Proof.
  intros P. unfold competition_rank, strictly_better.
  now rewrite (filter_length_perm _ _ _ P).
Qed.

Lemma rows_rank_count (team_stats : dict TeamStats)
  (order : option (list string)) (j : nat) (t : team_data)
  (r : StandingsRow) :
  nth_error
    (sort_teams (active_order order) (map make_team_data team_stats)) j
  = Some t ->
  nth_error (rank_teams_advanced team_stats order) j = Some r ->
  row_team r = t_name t
  /\ row_rank r
     = competition_rank (active_order order) t
         (map make_team_data team_stats).
Proof.
  rewrite rank_teams_advanced_eq. intros Ht Hr. split.
  - destruct (assign_ranks_nth (active_order order) _ _ _ Ht)
      as (r' & Hr' & Hv & _).
    rewrite Hr in Hr'. injection Hr' as <-.
    unfold row_view, team_view in Hv. now injection Hv as -> _ _.
  - rewrite (assign_ranks_count _ _ _ _ _
               (sort_teams_sorted _ _) Ht Hr).
    apply competition_rank_perm, sort_by_perm.
Qed.

(** X25. The rank of a row is the rank of standard competition ranking: one
    more than the number of teams of the mapping whose sort key under the
    active tie-break order is strictly smaller than that of the row's
    team. *)
Theorem rank_is_competition_rank (team_stats : dict TeamStats)
  (order : option (list string)) (j : nat) (t : team_data)
  (r : StandingsRow) :
  let o := active_order order in
  let teams := map make_team_data team_stats in
  nth_error (sort_teams o teams) j = Some t ->
  nth_error (rank_teams_advanced team_stats order) j = Some r ->
  row_team r = t_name t /\ row_rank r = competition_rank o t teams.
Proof. cbn zeta. apply rows_rank_count. Qed.

Lemma rank_is_competition_rank_witness :
  row_team (3, "C"%string, 3, -1) = "C"%string
  /\ row_rank (3, "C"%string, 3, -1)
     = competition_rank default_tiebreaker_order (mkTeam "C" 3 (-1) 2 1)
         (map make_team_data leaders_level).
Proof.
  apply (rank_is_competition_rank leaders_level None 2
           (mkTeam "C" 3 (-1) 2 1) (3, "C"%string, 3, -1));
    reflexivity.
Defined.

Lemma rank_dict_count (team_stats : dict TeamStats)
  (order : option (list string)) (t : string) (s : TeamStats) :
  NoDup (keys team_stats) ->
  In (t, s) team_stats ->
  dict_get t (build_rank_dict (rank_teams_advanced team_stats order))
  = Some (competition_rank (active_order order) (make_team_data (t, s))
            (map make_team_data team_stats)).
Proof.
  intros Hnd Hin.
  assert (Hs : In (make_team_data (t, s))
                 (sort_teams (active_order order)
                    (map make_team_data team_stats))).
  { pose proof (sort_by_perm (get_sort_key (active_order order)) tuple_lt
                  (map make_team_data team_stats)) as P.
    apply Permutation_sym in P. apply (Permutation_in _ P).
    now apply in_map. }
  apply In_nth_error in Hs. destruct Hs as (j & Hj).
  assert (Hr : exists r,
             nth_error (rank_teams_advanced team_stats order) j = Some r).
  { rewrite rank_teams_advanced_eq.
    destruct (assign_ranks_nth (active_order order) _ _ _ Hj)
      as (r & Hr & _). eauto. }
  destruct Hr as (r & Hr).
  destruct (rows_rank_count _ _ _ _ _ Hj Hr) as (E1 & E2).
  cbn [make_team_data t_name fst] in E1. rewrite <- E2, <- E1.
  apply rank_dict_get.
  - pose proof (rows_teams team_stats order) as P.
    apply Permutation_sym in P. exact (Permutation_NoDup P Hnd).
  - exact (nth_error_In _ _ Hr).
Qed.

(** X26. The rank the reporter's rank map gives a team does not depend on
    the order of the entries of the stats mapping. *)
Theorem rank_map_order_independent (team_stats team_stats' : dict TeamStats)
  (order : option (list string)) (t : string) :
  NoDup (keys team_stats) ->
  Permutation team_stats team_stats' ->
  dict_get t (build_rank_dict (rank_teams_advanced team_stats order))
  = dict_get t (build_rank_dict (rank_teams_advanced team_stats' order)).
Proof.
  intros Hnd P.
  assert (Hnd' : NoDup (keys team_stats'))
    by (exact (Permutation_NoDup (Permutation_map fst P) Hnd)).
  destruct (in_dec string_dec t (keys team_stats)) as [Hin|Hni].
  - apply in_map_iff in Hin. destruct Hin as ([k s] & E & Hin).
    cbn [fst] in E. subst k.
    rewrite (rank_dict_count _ order _ _ Hnd Hin),
      (rank_dict_count _ order _ _ Hnd' (Permutation_in _ P Hin)).
    f_equal. apply competition_rank_perm, Permutation_map, P.
  - assert (G : forall ts,
               Permutation (keys team_stats) (keys ts) ->
               dict_get t (build_rank_dict (rank_teams_advanced ts order))
               = None).
    { intros ts Pk.
      destruct (dict_get t (build_rank_dict (rank_teams_advanced ts order)))
        eqn:E; [|reflexivity].
      exfalso. apply Hni.
      assert (C : contains t
                    (build_rank_dict (rank_teams_advanced ts order)) = true)
        by (rewrite contains_get, E; reflexivity).
      apply rank_dict_teams in C.
      apply (Permutation_in _ (rows_teams ts order)) in C.
      apply Permutation_sym in Pk. exact (Permutation_in _ Pk C). }
    rewrite (G team_stats (Permutation_refl _)).
    now rewrite (G team_stats' (Permutation_map fst P)).
Qed.

Lemma rank_map_order_independent_witness :
  dict_get "C" (build_rank_dict (rank_teams_advanced leaders_level None))
  = dict_get "C"
      (build_rank_dict (rank_teams_advanced (rev leaders_level) None)).
Proof.
  apply (rank_map_order_independent leaders_level (rev leaders_level)).
  - repeat constructor; simpl; intuition discriminate.
  - apply Permutation_rev.
Defined.

(** ** Aggregator: matches on distinct dates *)

Lemma string_ltb_asym (a b : string) :
  String.ltb a b = true -> String.ltb b a = false.
Proof.
  unfold String.ltb. rewrite (String.compare_antisym b a).
  now destruct (String.compare a b).
Qed.

Lemma string_compare_le_trans (a : string) :
  forall b c,
    String.compare a b <> Gt -> String.compare b c <> Gt ->
    String.compare a c <> Gt.
Proof.
  induction a as [|x a IH]; intros [|y b] [|z c]; simpl; try congruence.
  unfold Ascii.compare.
  destruct (N.compare_spec (N_of_ascii x) (N_of_ascii y)),
    (N.compare_spec (N_of_ascii y) (N_of_ascii z)),
    (N.compare_spec (N_of_ascii x) (N_of_ascii z));
    try lia; try congruence.
  apply IH.
Qed.

Lemma string_le_trans (a b c : string) :
  String.ltb b a = false -> String.ltb c b = false -> String.ltb c a = false.
Proof.
  unfold String.ltb. intros Hab Hbc.
  assert (H1 : String.compare a b <> Gt).
  { rewrite String.compare_antisym. destruct (String.compare b a);
      simpl; congruence. }
  assert (H2 : String.compare b c <> Gt).
  { rewrite String.compare_antisym. destruct (String.compare c b);
      simpl; congruence. }
  pose proof (string_compare_le_trans _ _ _ H1 H2) as H.
  rewrite String.compare_antisym in H.
  destruct (String.compare c a); simpl in H; congruence.
Qed.

Lemma string_le_antisym (a b : string) :
  String.ltb a b = false -> String.ltb b a = false -> a = b.
Proof.
  unfold String.ltb. intros Hab Hba. apply String.compare_eq_iff.
  rewrite (String.compare_antisym b a) in Hba.
  destruct (String.compare a b); simpl in *; congruence.
Qed.

Section SortedUnique.
Context {A K : Type}.
Variable key : A -> K.
Variable lt : K -> K -> bool.
Hypothesis lt_asym : forall a b, lt a b = true -> lt b a = false.
Hypothesis le_trans :
  forall a b c, lt b a = false -> lt c b = false -> lt c a = false.
Hypothesis le_antisym : forall a b, lt a b = false -> lt b a = false -> a = b.

Lemma same_key_same (l : list A) (x y : A) :
  NoDup (map key l) -> In x l -> In y l -> key x = key y -> x = y.
Proof.
  induction l as [|z l IH]; cbn [map]; intros Hnd Hx Hy E; [destruct Hx|].
  inversion Hnd as [|? ? Hni Hnd']; subst.
  destruct Hx as [<-|Hx], Hy as [<-|Hy].
  - reflexivity.
  - exfalso. apply Hni. rewrite E. now apply in_map.
  - exfalso. apply Hni. rewrite <- E. now apply in_map.
  - now apply IH.
Qed.

(** Two lists in order with the same elements and no key twice are equal. *)
Lemma in_order_unique (l : list A) :
  forall l',
    StronglySorted (in_order key lt) l ->
    StronglySorted (in_order key lt) l' ->
    NoDup (map key l) ->
    Permutation l l' ->
    l = l'.
Proof.
  induction l as [|x l IH]; intros l' Hs Hs' Hnd P.
  - now apply Permutation_nil in P.
  - destruct l' as [|y l'];
      [apply Permutation_sym, Permutation_nil in P; discriminate|].
    assert (E : x = y).
    { apply (same_key_same (x :: l)); [exact Hnd | now left | |].
      - apply Permutation_sym in P. apply (Permutation_in _ P). now left.
      - assert (Hy : In y (x :: l))
          by (apply Permutation_sym in P; apply (Permutation_in _ P);
              now left).
        assert (Hx : In x (y :: l'))
          by (apply (Permutation_in _ P); now left).
        inversion Hs as [|? ? _ Hall]; subst.
        inversion Hs' as [|? ? _ Hall']; subst.
        rewrite Forall_forall in Hall, Hall'.
        destruct Hy as [Hy|Hy]; [now rewrite Hy|].
        destruct Hx as [Hx|Hx]; [now rewrite Hx|].
        apply le_antisym; [exact (Hall' x Hx) | exact (Hall y Hy)]. }
    subst y. f_equal.
    inversion Hs; inversion Hs'; inversion Hnd; subst.
    apply IH; try assumption.
    exact (Permutation_cons_inv P).
Qed.

Lemma sort_by_unique (l l' : list A) :
  NoDup (map key l) ->
  Permutation l l' ->
  sort_by key lt l = sort_by key lt l'.
Proof.
  intros Hnd P.
  assert (T : Relations_1.Transitive (in_order key lt))
    by (intros a b c Hab Hbc; unfold in_order in *;
        exact (le_trans _ _ _ Hab Hbc)).
  apply in_order_unique.
  - apply (Sorted_StronglySorted T), sort_by_sorted, lt_asym.
  - apply (Sorted_StronglySorted T), sort_by_sorted, lt_asym.
  - apply (Permutation_NoDup (l := map key l)); [|exact Hnd].
    apply Permutation_map, Permutation_sym, sort_by_perm.
  - eapply perm_trans; [apply sort_by_perm|].
    eapply perm_trans; [exact P|]. apply Permutation_sym, sort_by_perm.
Qed.
End SortedUnique.

(** X27. When no two matches have the same date, the aggregator's output,
    win streaks and order of the teams included, does not depend on the
    order of the input list. *)
Theorem distinct_dates_order_independent (ms ms' : list MatchRecord) :
  NoDup (map date ms) ->
  Permutation ms ms' ->
  calculate_advanced_team_stats ms = calculate_advanced_team_stats ms'.
Proof.
  intros Hnd P.
  assert (E : sort_matches ms = sort_matches ms').
  { apply sort_by_unique; try assumption.
    - apply string_ltb_asym.
    - apply string_le_trans.
    - apply string_le_antisym. }
  unfold calculate_advanced_team_stats. rewrite E.
  destruct ms as [|m l], ms' as [|m' l']; try reflexivity.
  now apply Permutation_nil in P.
Qed.

Lemma distinct_dates_order_independent_witness :
  calculate_advanced_team_stats upset_matches
  = calculate_advanced_team_stats (rev upset_matches).
Proof.
  apply (distinct_dates_order_independent upset_matches (rev upset_matches)).
  - repeat constructor; simpl; intuition discriminate.
  - apply Permutation_rev.
Defined.

(** ** Aggregator: the totals of a team from the matches *)

Lemma count_fold_shares (l : list entry) (c : counters) :
  c_home_points (fold_left count_step l c)
  = c_home_points c + sum_over home_share l
  /\ c_away_points (fold_left count_step l c)
     = c_away_points c + sum_over away_share l
  /\ c_total_attendance (fold_left count_step l c)
     = c_total_attendance c + sum_over entry_attendance l.
Proof.
  revert c; induction l as [|e l IH]; intros c; simpl; [lia|].
  destruct (IH (count_step c e)) as (-> & -> & ->).
  unfold count_step, home_share, away_share, entry_attendance, entry_points,
    entry_result.
  destruct (team_score e >? opponent_score e);
    [|destruct (team_score e =? opponent_score e)];
    destruct (is_home e); fields; cbn [fst snd]; lia.
Qed.

Lemma totals_sums (es : list entry) :
  totals (team_stats_of es) = entry_sums es.
Proof.
  unfold totals, team_stats_of, entry_sums. fields.
  destruct (count_fold_results es counters0) as (-> & -> & -> & ->).
  destruct (count_fold_goals es counters0) as (-> & ->).
  destruct (count_fold_shares es counters0) as (-> & -> & ->).
  reflexivity.
Qed.

(** X28. The totals the aggregator stores for a team are the sums over the
    entries of that team in the input list: points, matches played, wins,
    draws, losses, goals for and against, goal difference, home and away
    points and total attendance. *)
Theorem team_totals_from_matches (matches_list : list MatchRecord)
  (t : string) (s : TeamStats) :
  dict_get t (calculate_advanced_team_stats matches_list) = Some s ->
  totals s = entry_sums (entries_of t matches_list).
Proof.
  rewrite dict_get_calculate. intros H.
  assert (Q : Permutation (entries_of t (sort_matches matches_list))
                (entries_of t matches_list))
    by (unfold entries_of; apply Permutation_flat_map, sort_by_perm).
  destruct (entries_of t (sort_matches matches_list)) as [|e es];
    [discriminate|].
  cbn [some_nonempty option_map] in H. injection H as <-.
  rewrite <- totals_sums. apply totals_perm.
  exact (perm_trans (sort_by_perm entry_date String.ltb (e :: es)) Q).
Qed.

Lemma team_totals_from_matches_witness :
  totals (mkStats 4 2 1 1 0 3 1 2 4 0 0 220)
  = entry_sums (entries_of "Alpha" streak_example).
Proof.
  apply (team_totals_from_matches streak_example "Alpha"). reflexivity.
Defined.
